(** * EMI calculator: a shallow embedding of [emi_calculator.py]

    The development follows the layout of the Python module:

    - [Decimal]: the part of Python's [decimal] arithmetic the module
      relies on, in the context it installs ([getcontext().prec = 28],
      rounding half-even, default exponent limits and traps);
    - [Calendar]: [datetime.date], [calendar.isleap],
      [calendar.monthrange] and the [relativedelta] shifts that are used;
    - [finance_round], [DayCountConvention], [EMI_Calculator]: the code
      of the module itself, one definition per function;
    - the properties of the schedule, of the solver and of the date
      generator.

    Exceptions are values of [exn] carried by the [result] monad. *)

From stdpp Require Import base option list gmap strings.
From Stdlib Require Import ZArith Lia.

Local Open Scope Z_scope.

(** ** Exceptions and the error monad *)

Inductive exn : Type :=
| KeyError            (* dict lookup with an unknown key *)
| DivisionByZero      (* decimal.DivisionByZero *)
| InvalidOperation    (* decimal.InvalidOperation, 0/0 included *)
| Overflow            (* decimal.Overflow *)
| DateOutOfRange.     (* ValueError / OverflowError of datetime.date *)

Inductive result (A : Type) : Type :=
| Ok (a : A)
| Raise (e : exn).
Arguments Ok {A} a.
Arguments Raise {A} e.

#[global] Instance exn_eq_dec : EqDecision exn.
Proof. solve_decision. Defined.

#[global] Instance result_eq_dec {A} `{EqDecision A} : EqDecision (result A).
Proof. solve_decision. Defined.

#[global] Instance result_ret : MRet result := fun _ a => Ok a.
#[global] Instance result_bind : MBind result := fun _ _ f m =>
  match m with
  | Ok a => f a
  | Raise e => Raise e
  end.

Definition is_ok {A} (m : result A) : bool :=
  match m with Ok _ => true | Raise _ => false end.

Definition from_option {A} (e : exn) (o : option A) : result A :=
  match o with Some a => Ok a | None => Raise e end.

(** ** Decimal arithmetic in the module's context *)

Module Decimal.

(** A finite decimal is [coef * 10 ^ expo].  The coefficient carries the
    sign; the sign of a zero, which Python keeps and never compares, is not
    tracked.  NaN and the infinities cannot be produced from finite
    operands while the default traps are set, and are not modelled: every
    statement about a decimal input is about a finite decimal. *)
Record t : Type := mk { coef : Z; expo : Z }.

#[global] Instance t_eq_dec : EqDecision t.
Proof. solve_decision. Defined.

(** The context: [getcontext().prec = 28], the rest is Python's default. *)
Definition prec : Z := 28.
Definition Emax : Z := 999999.
Definition Emin : Z := -999999.
Definition Etiny : Z := Emin - prec + 1.
Definition Etop : Z := Emax - prec + 1.

(** [len(self._int)]: the number of decimal digits of a non-negative
    coefficient; the coefficient zero is the string "0". *)
Fixpoint coeff_len_fuel (fuel : nat) (n : Z) : Z :=
  match fuel with
  | O => 1
  | S f => if n <? 10 then 1 else 1 + coeff_len_fuel f (n / 10)
  end.

Definition coeff_len (n : Z) : Z := coeff_len_fuel (Z.to_nat (Z.log2 n)) n.

(** [self.adjusted()] *)
Definition adjusted (d : t) : Z := expo d + coeff_len (Z.abs (coef d)) - 1.

(** ROUND_HALF_EVEN: does dropping the digits below [m = 10^k] of the
    non-negative [n] round the kept part up? *)
Definition rounds_up (n m : Z) : bool :=
  let r := n mod m in
  if 2 * r <? m then false
  else if m <? 2 * r then true
  else Z.odd (n / m).

Definition round_half_even (n m : Z) : Z :=
  if rounds_up n m then n / m + 1 else n / m.

(** [self._rescale(exp, ROUND_HALF_EVEN)] *)
Definition rescale (d : t) (e : Z) : t :=
  if e <=? expo d then mk (coef d * 10 ^ (expo d - e)) e
  else mk (Z.sgn (coef d) * round_half_even (Z.abs (coef d)) (10 ^ (e - expo d))) e.

(** [self._fix(context)]: round to the precision of the context, keep the
    exponent within its limits. *)
Definition fix_ (d : t) : result t :=
  if coef d =? 0 then Ok (mk 0 (Z.min (Z.max (expo d) Etiny) Emax))
  else
    let n := Z.abs (coef d) in
    let exp_min := coeff_len n + expo d - prec in
    if Etop <? exp_min then Raise Overflow
    else
      let exp_min := Z.max exp_min Etiny in
      if expo d <? exp_min then
        let m := 10 ^ (exp_min - expo d) in
        let '(coeff, exp_min) :=
          if rounds_up n m then
            let coeff := n / m + 1 in
            if prec <? coeff_len coeff then (coeff / 10, exp_min + 1)
            else (coeff, exp_min)
          else (n / m, exp_min) in
        if Etop <? exp_min then Raise Overflow
        else Ok (mk (Z.sgn (coef d) * coeff) exp_min)
      else Ok d.

(** [Decimal(n)] for an [int]. *)
Definition of_Z (n : Z) : t := mk n 0.

Definition neg (d : t) : t := mk (- coef d) (expo d).

(** [a + b]: the exact sum at the smaller exponent, then [_fix]. *)
Definition add (a b : t) : result t :=
  let e := Z.min (expo a) (expo b) in
  fix_ (mk (coef a * 10 ^ (expo a - e) + coef b * 10 ^ (expo b - e)) e).

(** [a - b] is [a.__add__(b.copy_negate())]. *)
Definition sub (a b : t) : result t := add a (neg b).

(** [a * b] *)
Definition mul (a b : t) : result t :=
  fix_ (mk (coef a * coef b) (expo a + expo b)).

(** The loop of [__truediv__] that strips trailing zeros of an exact
    quotient while the exponent is below the ideal one; at most [steps]
    iterations are possible. *)
Fixpoint strip_zeros (steps : nat) (coeff e ideal : Z) : Z * Z :=
  match steps with
  | O => (coeff, e)
  | S k =>
      if (e <? ideal) && (coeff mod 10 =? 0)
      then strip_zeros k (coeff / 10) (e + 1) ideal
      else (coeff, e)
  end.

(** [a / b] *)
Definition div (a b : t) : result t :=
  if coef b =? 0 then
    if coef a =? 0 then Raise InvalidOperation else Raise DivisionByZero
  else if coef a =? 0 then fix_ (mk 0 (expo a - expo b))
  else
    let n1 := Z.abs (coef a) in
    let n2 := Z.abs (coef b) in
    let shift := coeff_len n2 - coeff_len n1 + prec + 1 in
    let e := expo a - expo b - shift in
    let '(q, r) :=
      if 0 <=? shift then Z.div_eucl (n1 * 10 ^ shift) n2
      else Z.div_eucl n1 (n2 * 10 ^ (- shift)) in
    let '(coeff, e) :=
      if negb (r =? 0) then ((if q mod 5 =? 0 then q + 1 else q), e)
      else strip_zeros (Z.to_nat shift) q e (expo a - expo b) in
    fix_ (mk (Z.sgn (coef a) * Z.sgn (coef b) * coeff) e).

(** [self.quantize(q)] where [q] has exponent [e]. *)
Definition quantize (d : t) (e : Z) : result t :=
  if negb ((Etiny <=? e) && (e <=? Emax)) then Raise InvalidOperation
  else if coef d =? 0 then fix_ (mk 0 e)
  else if Emax <? adjusted d then Raise InvalidOperation
  else if prec <? adjusted d - e + 1 then Raise InvalidOperation
  else
    let ans := rescale d e in
    if Emax <? adjusted ans then Raise InvalidOperation
    else if prec <? coeff_len (Z.abs (coef ans)) then Raise InvalidOperation
    else fix_ ans.

(** [Decimal(10) ** -ndigits] for a non-negative [ndigits] is the decimal
    [1E-ndigits]. *)
Definition pow10_neg (ndigits : N) : t := mk 1 (- Z.of_N ndigits).

(** Numerical comparison with zero. *)
Definition is_zero (d : t) : bool := coef d =? 0.

End Decimal.

Abbreviation Decimal := Decimal.t.

(** ** Dates: [datetime.date], [calendar] and [relativedelta] *)

Module Calendar.

(** A [datetime.date] stores year, month and day. *)
Record date : Type := mkdate { year : Z; month : Z; day : Z }.

#[global] Instance date_eq_dec : EqDecision date.
Proof. solve_decision. Defined.

Definition MINYEAR : Z := 1.
Definition MAXYEAR : Z := 9999.
Definition MAXORDINAL : Z := 3652059.

(** [calendar.isleap], also [datetime._is_leap]. *)
Definition isleap (y : Z) : bool :=
  (y mod 4 =? 0) && (negb (y mod 100 =? 0) || (y mod 400 =? 0)).

Definition mdays : list Z := [0; 31; 28; 31; 30; 31; 30; 31; 31; 30; 31; 30; 31].
Definition DAYS_BEFORE_MONTH : list Z :=
  [-1; 0; 31; 59; 90; 120; 151; 181; 212; 243; 273; 304; 334].

Definition days_before_year (y : Z) : Z :=
  let y := y - 1 in y * 365 + y / 4 - y / 100 + y / 400.

Definition days_in_month (y m : Z) : Z :=
  if (m =? 2) && isleap y then 29 else nth (Z.to_nat m) mdays 0.

Definition days_before_month (y m : Z) : Z :=
  nth (Z.to_nat m) DAYS_BEFORE_MONTH 0 + (if (2 <? m) && isleap y then 1 else 0).

Definition ymd2ord (y m d : Z) : Z :=
  days_before_year y + days_before_month y m + d.

Definition DI400Y : Z := 146097.
Definition DI100Y : Z := 36524.
Definition DI4Y : Z := 1461.

(** The end of [datetime._ord2ymd]: month and day from the offset [n] in
    the year. *)
Definition month_and_day (leapyear : bool) (n : Z) : Z * Z :=
  let m := Z.shiftr (n + 50) 5 in
  let preceding :=
    nth (Z.to_nat m) DAYS_BEFORE_MONTH 0 + (if (2 <? m) && leapyear then 1 else 0) in
  let '(m, preceding) :=
    if n <? preceding then
      (m - 1, preceding - (nth (Z.to_nat (m - 1)) mdays 0
                           + (if (m - 1 =? 2) && leapyear then 1 else 0)))
    else (m, preceding) in
  (m, n - preceding + 1).

(** [datetime._ord2ymd] *)
Definition ord2ymd (n : Z) : date :=
  let n := n - 1 in
  let n400 := n / DI400Y in let n := n mod DI400Y in
  let y := n400 * 400 + 1 in
  let n100 := n / DI100Y in let n := n mod DI100Y in
  let n4 := n / DI4Y in let n := n mod DI4Y in
  let n1 := n / 365 in let n := n mod 365 in
  let y := y + n100 * 100 + n4 * 4 + n1 in
  if (n1 =? 4) || (n100 =? 4) then mkdate (y - 1) 12 31
  else
    let leapyear := (n1 =? 3) && (negb (n4 =? 24) || (n100 =? 3)) in
    let '(m, d) := month_and_day leapyear n in
    mkdate y m d.

Definition toordinal (d : date) : Z := ymd2ord (year d) (month d) (day d).
Definition fromordinal (n : Z) : date := ord2ymd n.

(** The invariant of a [date] object. *)
Definition valid_date (d : date) : bool :=
  (MINYEAR <=? year d) && (year d <=? MAXYEAR)
  && (1 <=? month d) && (month d <=? 12)
  && (1 <=? day d) && (day d <=? days_in_month (year d) (month d)).

(** [datetime.date(y, m, d)], also [d.replace(year=.., month=.., day=..)]:
    ValueError when the fields are out of range. *)
Definition make_date (y m d : Z) : result date :=
  if valid_date (mkdate y m d) then Ok (mkdate y m d) else Raise DateOutOfRange.

(** [d + timedelta(days=n)] *)
Definition add_days (d : date) (n : Z) : result date :=
  let o := toordinal d + n in
  if (0 <? o) && (o <=? MAXORDINAL) then Ok (fromordinal o)
  else Raise DateOutOfRange.

(** [(e - s).days] *)
Definition days_between (e s : date) : Z := toordinal e - toordinal s.

(** [date.weekday()] and [calendar.weekday]. *)
Definition weekday (y m d : Z) : Z :=
  let y := if (MINYEAR <=? y) && (y <=? MAXYEAR) then y else 2000 + y mod 400 in
  (ymd2ord y m d + 6) mod 7.

(** [calendar.monthrange(y, m)]; every call site passes the month of a
    date or a month already brought back into 1..12, so IllegalMonthError
    is never raised. *)
Definition monthrange (y m : Z) : Z * Z :=
  (weekday y m 1, nth (Z.to_nat m) mdays 0 + (if (m =? 2) && isleap y then 1 else 0)).

(** The fields of a [relativedelta] that the module sets. *)
Record relativedelta : Type := mkrd { rd_years : Z; rd_months : Z; rd_days : Z }.

(** [relativedelta(weeks=w)] *)
Definition rd_weeks (w : Z) : relativedelta := mkrd 0 0 (7 * w).

(** [relativedelta(months=n)]: the constructor carries whole years of
    months over to [years]. *)
Definition rd_of_months (n : Z) : relativedelta :=
  if 11 <? Z.abs n then
    let s := Z.sgn n in
    mkrd (((n * s) / 12) * s) (((n * s) mod 12) * s) 0
  else mkrd 0 n 0.

(** [d + rd] *)
Definition add_relativedelta (d : date) (rd : relativedelta) : result date :=
  let y := year d + rd_years rd in
  let m := month d in
  let '(y, m) :=
    if rd_months rd =? 0 then (y, m)
    else
      let m := m + rd_months rd in
      if 12 <? m then (y + 1, m - 12)
      else if m <? 1 then (y - 1, m + 12)
      else (y, m) in
  let dd := Z.min (monthrange y m).2 (day d) in
  r ← make_date y m dd;
  add_days r (rd_days rd).

(** [d.strftime("%Y-%m-%d")] is determined by the three fields; the row of
    a schedule keeps the date itself. *)

End Calendar.

Abbreviation date := Calendar.date.

Import Calendar.

(** ** The module [emi_calculator] *)

(** [finance_round(value, ndigits=2)]; [Decimal(value)] of a decimal is the
    decimal itself. *)
Definition finance_round (value : Decimal) (ndigits : N) : result Decimal :=
  Decimal.quantize value (Decimal.expo (Decimal.pow10_neg ndigits)).

Module DayCountConvention.

Definition year_fraction_30_360 (start_date end_date : date)
  : result (Decimal * Z) :=
  let d1 := Z.min (day start_date) 30 in
  let d2 := Z.min (day end_date) 30 in
  let days := (year end_date - year start_date) * 360
              + (month end_date - month start_date) * 30 + (d2 - d1) in
  q ← Decimal.div (Decimal.of_Z days) (Decimal.of_Z 360);
  Ok (q, days).

Definition year_fraction_actual_360 (start_date end_date : date)
  : result (Decimal * Z) :=
  let days := days_between end_date start_date in
  q ← Decimal.div (Decimal.of_Z days) (Decimal.of_Z 360);
  Ok (q, days).

Definition year_fraction_actual_365 (start_date end_date : date)
  : result (Decimal * Z) :=
  let days := days_between end_date start_date in
  q ← Decimal.div (Decimal.of_Z days) (Decimal.of_Z 365);
  Ok (q, days).

Definition year_fraction_actual_actual (start_date end_date : date)
  : result (Decimal * Z) :=
  let days := days_between end_date start_date in
  let year_days := if isleap (year start_date) then 366 else 365 in
  q ← Decimal.div (Decimal.of_Z days) (Decimal.of_Z year_days);
  Ok (q, days).

End DayCountConvention.

Definition dcc_fun : Type := date -> date -> result (Decimal * Z).

(** The attributes of an [EMI_Calculator] object. *)
Record EMI_Calculator : Type := mkcalc {
  P : Decimal;
  R : Decimal;
  start_date : date;
  years : Z;
  convention : string;
  frequency : string;
  periods_per_year : Z;
  terms : Z;
  dcc : dcc_fun;
  emi : Decimal
}.

Definition set_emi (self : EMI_Calculator) (e : Decimal) : EMI_Calculator :=
  mkcalc (P self) (R self) (start_date self) (years self) (convention self)
         (frequency self) (periods_per_year self) (terms self) (dcc self) e.

(** One row of the schedule, the dict appended by [get_schedule].  The
    payment date is kept as the date that [strftime] prints. *)
Record Row : Type := mkrow {
  Payment_No : Z;
  Payment_Date : date;
  Opening_Balance : Decimal;
  Principal : Decimal;
  Interest : Decimal;
  EMI : Decimal;
  Closing_Balance : Decimal
}.

Definition periods_table : gmap string Z :=
  list_to_map [("W", 52); ("BW", 26); ("M", 12); ("Q", 4); ("S", 2); ("A", 1)].

Definition dcc_table : gmap string dcc_fun :=
  list_to_map
    [("30/360", DayCountConvention.year_fraction_30_360);
     ("Actual/360", DayCountConvention.year_fraction_actual_360);
     ("Actual/365", DayCountConvention.year_fraction_actual_365);
     ("Actual/Actual", DayCountConvention.year_fraction_actual_actual)].

(** [_adjust_end_of_month] *)
Definition _adjust_end_of_month (d : date) (months_to_add : Z) : result date :=
  new_date ← add_relativedelta d (rd_of_months months_to_add);
  let last_day := (monthrange (year new_date) (month new_date)).2 in
  if day d =? (monthrange (year d) (month d)).2
  then make_date (year new_date) (month new_date) last_day
  else Ok new_date.

(** The body of the loop of [_generate_payment_dates]: the new value of [d]. *)
Definition roll (freq : string) (d : date) : result date :=
  if decide (freq = "W") then add_relativedelta d (rd_weeks 1)
  else if decide (freq = "BW") then add_relativedelta d (rd_weeks 2)
  else if decide (freq = "M") then _adjust_end_of_month d 1
  else if decide (freq = "Q") then _adjust_end_of_month d 3
  else if decide (freq = "S") then _adjust_end_of_month d 6
  else if decide (freq = "A") then _adjust_end_of_month d 12
  else Ok d.

(** [for _ in range(n)] with the loop state [(dates, d)]. *)
Fixpoint dates_loop (n : nat) (freq : string) (dates : list date) (d : date)
  : result (list date) :=
  match n with
  | O => Ok dates
  | S k => d' ← roll freq d; dates_loop k freq (dates ++ [d']) d'
  end.

Definition _generate_payment_dates (self : EMI_Calculator) : result (list date) :=
  dates_loop (Z.to_nat (terms self)) (frequency self)
             [start_date self] (start_date self).

(** The loop of [calculate_emi], with the state [(prev_date, F, product)];
    it returns the final [F]. *)
Fixpoint emi_loop (self : EMI_Calculator) (pay_dates : list date)
    (prev_date : date) (F product : Decimal) : result Decimal :=
  match pay_dates with
  | [] => Ok F
  | pay_date :: rest =>
      '(yf, _) ← dcc self prev_date pay_date;
      ryf ← Decimal.mul (R self) yf;
      factor ← Decimal.add (Decimal.of_Z 1) ryf;
      product ← Decimal.mul product factor;
      inv ← Decimal.div (Decimal.of_Z 1) product;
      F ← Decimal.add F inv;
      emi_loop self rest pay_date F product
  end.

Definition calculate_emi (self : EMI_Calculator) : result Decimal :=
  dates ← _generate_payment_dates self;
  F ← emi_loop self (drop 1 dates) (start_date self)
         (Decimal.of_Z 0) (Decimal.of_Z 1);
  e ← Decimal.div (P self) F;
  finance_round e 2.

(** [EMI_Calculator(principal, annual_rate, start_date, years, convention,
    frequency)].  [emi] is assigned last; until then the attribute holds a
    value that [calculate_emi] does not read. *)
Definition init (principal annual_rate : Decimal) (start : date) (yrs : Z)
    (conv freq : string) : result EMI_Calculator :=
  r ← Decimal.div annual_rate (Decimal.of_Z 100);
  ppy ← from_option KeyError (periods_table !! freq);
  f ← from_option KeyError (dcc_table !! conv);
  let self := mkcalc principal r start yrs conv freq ppy (yrs * ppy) f
                     (Decimal.of_Z 0) in
  e ← calculate_emi self;
  Ok (set_emi self e).

(** [enumerate(l, start)] *)
Fixpoint enumerate (start : Z) (l : list date) : list (Z * date) :=
  match l with
  | [] => []
  | x :: rest => (start, x) :: enumerate (start + 1) rest
  end.

(** The body of the loop of [get_schedule]: the row appended and the new
    balance. *)
Definition schedule_step (self : EMI_Calculator) (i : Z)
    (prev_date pay_date : date) (balance : Decimal) : result (Row * Decimal) :=
  '(yf, days) ← dcc self prev_date pay_date;
  br ← Decimal.mul balance (R self);
  bry ← Decimal.mul br yf;
  interest ← finance_round bry 2;
  principal ← Decimal.sub (emi self) interest;
  balance ← Decimal.sub balance principal;
  '(principal, e, balance) ←
    (if i =? terms self then
       principal ← Decimal.add principal balance;
       e ← Decimal.add principal interest;
       Ok (principal, e, Decimal.mk 0 (-2))
     else Ok (principal, emi self, balance));
  ob ← Decimal.add balance principal;
  opening ← finance_round ob 2;
  rprincipal ← finance_round principal 2;
  rinterest ← finance_round interest 2;
  remi ← finance_round e 2;
  closing ← finance_round balance 2;
  Ok (mkrow i pay_date opening rprincipal rinterest remi closing, balance).

(** The loop of [get_schedule], with the state
    [(schedule, balance, prev_date)]. *)
Fixpoint schedule_loop (self : EMI_Calculator) (items : list (Z * date))
    (schedule : list Row) (balance : Decimal) (prev_date : date)
  : result (list Row) :=
  match items with
  | [] => Ok schedule
  | (i, pay_date) :: rest =>
      '(row, balance) ← schedule_step self i prev_date pay_date balance;
      schedule_loop self rest (schedule ++ [row]) balance pay_date
  end.

Definition get_schedule (self : EMI_Calculator) : result (list Row) :=
  dates ← _generate_payment_dates self;
  schedule_loop self (enumerate 1 (drop 1 dates)) [] (P self) (start_date self).

(** [Decimal("10000")] and the like: a decimal given by its digits and the
    number of digits after the point. *)
Definition dec (digits : Z) (places : Z) : Decimal := Decimal.mk digits (- places).

Definition spec_scenario : result EMI_Calculator :=
  init (dec 10000 0) (dec 9 0) (mkdate 2024 1 31) 2 "Actual/365" "M".

(** ** Vocabulary of the properties *)

(** A decimal in cents: exponent -2, as [finance_round] returns it. *)
Definition cents (c : Z) : Decimal := Decimal.mk c (-2).

(** The value in cents of a decimal whose exponent is at least -2. *)
Definition cents_value (d : Decimal) : Z :=
  Decimal.coef d * 10 ^ (Decimal.expo d + 2).

(** All the amounts of a row are in cents. *)
Definition row_in_cents (r : Row) : Prop :=
  Decimal.expo (Opening_Balance r) = -2 /\ Decimal.expo (Principal r) = -2 /\
  Decimal.expo (Interest r) = -2 /\ Decimal.expo (EMI r) = -2 /\
  Decimal.expo (Closing_Balance r) = -2.

(** [date.day == cal.monthrange(date.year, date.month)[1]] *)
Definition is_month_end (d : date) : bool :=
  day d =? (monthrange (year d) (month d)).2.

(** The dates that [n] iterations of the loop of [_generate_payment_dates]
    append, starting from [d]. *)
Fixpoint roll_dates (n : nat) (freq : string) (d : date) : result (list date) :=
  match n with
  | O => Ok []
  | S k => d' ← roll freq d; rest ← roll_dates k freq d'; Ok (d' :: rest)
  end.

(** The rows that the loop of [get_schedule] appends, starting from the
    state [(balance, prev_date)]. *)
Fixpoint schedule_rows (self : EMI_Calculator) (items : list (Z * date))
    (balance : Decimal) (prev_date : date) : result (list Row) :=
  match items with
  | [] => Ok []
  | (i, pay_date) :: rest =>
      '(row, balance) ← schedule_step self i prev_date pay_date balance;
      rows ← schedule_rows self rest balance pay_date;
      Ok (row :: rows)
  end.

(** The sum of a column of the schedule, in cents. *)
Definition column_sum (f : Row -> Decimal) (rows : list Row) : Z :=
  foldr (fun r acc => Decimal.coef (f r) + acc) 0 rows.

(** The balance identities of a row, in cents. *)
Definition balanced_row (r : Row) : Prop :=
  row_in_cents r /\
  Decimal.coef (Opening_Balance r)
  = Decimal.coef (Principal r) + Decimal.coef (Closing_Balance r) /\
  Decimal.coef (EMI r) = Decimal.coef (Principal r) + Decimal.coef (Interest r).

(** Every amount that enters the last period is below 10^25 (10^27 cents),
    far inside the 28 digits of the context. *)
Definition modest_row (r : Row) : bool :=
  (Z.abs (Decimal.coef (Interest r)) <? 10 ^ 27)
  && (Z.abs (Decimal.coef (Closing_Balance r)) <? 10 ^ 27).

Definition modest (self : EMI_Calculator) (rows : list Row) : bool :=
  (Z.abs (cents_value (P self)) <? 10 ^ 27)
  && (Z.abs (Decimal.coef (emi self)) <? 10 ^ 27)
  && forallb modest_row rows.

(** The check that [month_and_day] splits the offset [n] of a common year
    (year 1) or of a leap year (year 4) into a month and a day of it. *)
Definition month_and_day_ok (leap : bool) (n : Z) : bool :=
  let '(m, d) := month_and_day leap n in
  (1 <=? m) && (m <=? 12) && (1 <=? d) && (d <=? days_in_month (if leap then 4 else 1) m)
  && (days_before_month (if leap then 4 else 1) m + d =? n + 1).

(** The order of [datetime.date]: lexicographic on year, month, day. *)
Definition date_ltb (a b : date) : bool :=
  (year a <? year b)
  || ((year a =? year b)
      && ((month a <? month b) || ((month a =? month b) && (day a <? day b)))).

(** The raw day count of [year_fraction_30_360]. *)
Definition days_30_360 (s e : date) : Z :=
  (year e - year s) * 360 + (month e - month s) * 30
  + (Z.min (day e) 30 - Z.min (day s) 30).

(** The installment as the specification words it: over the consecutive
    pairs of dates, in order, a product accumulator starting at 1 is
    multiplied by [1 + R * yearFraction] and its reciprocal is added to [F],
    starting at 0; the installment is [principal / F] rounded to 2 digits.
    [R] is the annual rate in percent divided by 100. *)
Definition consecutive_pairs (dates : list date) : list (date * date) :=
  zip dates (drop 1 dates).

Definition accumulate_period (rate : Decimal) (yearFraction : dcc_fun)
    (acc : result (Decimal * Decimal)) (pr : date * date)
  : result (Decimal * Decimal) :=
  '(product, F) ← acc;
  '(yf, _) ← yearFraction pr.1 pr.2;
  ryf ← Decimal.mul rate yf;
  periodFactor ← Decimal.add (Decimal.of_Z 1) ryf;
  product ← Decimal.mul product periodFactor;
  inv ← Decimal.div (Decimal.of_Z 1) product;
  F ← Decimal.add F inv;
  Ok (product, F).

Definition installment_spec (principal annualRatePercent : Decimal)
    (yearFraction : dcc_fun) (dates : list date) : result Decimal :=
  rate ← Decimal.div annualRatePercent (Decimal.of_Z 100);
  '(_, F) ← foldl (accumulate_period rate yearFraction)
                  (Ok (Decimal.of_Z 1, Decimal.of_Z 0)) (consecutive_pairs dates);
  q ← Decimal.div principal F;
  finance_round q 2.

(** Year and month [k] calendar months after the month of [d]. *)
Definition month_shift (d : date) (k : Z) : Z * Z :=
  let t := month d + k - 1 in (year d + t / 12, t mod 12 + 1).

(** ** Sample loans *)

(** 10000 at 9% over 2 years, monthly from 2024-01-31, Actual/365. *)
Definition monthly_loan : EMI_Calculator :=
  mkcalc (dec 10000 0) (dec 9 2) (mkdate 2024 1 31) 2 "Actual/365" "M" 12 24
         DayCountConvention.year_fraction_actual_365 (dec 45680 2).

(** 1000.00 at 12% over 1 year, quarterly from 2024-01-15, 30/360. *)
Definition quarterly_loan : EMI_Calculator :=
  mkcalc (dec 100000 2) (dec 12 2) (mkdate 2024 1 15) 1 "30/360" "Q" 4 4
         DayCountConvention.year_fraction_30_360 (dec 26903 2).

(** 10000.005 at 9% over 1 year, quarterly from 2024-01-31, Actual/365. *)
Definition fractional_loan : EMI_Calculator :=
  mkcalc (dec 10000005 3) (dec 9 2) (mkdate 2024 1 31) 1 "Actual/365" "Q" 4 4
         DayCountConvention.year_fraction_actual_365 (dec 264210 2).

(** A negative principal: -1000 at 12% over 1 year, annual, 30/360. *)
Definition negative_loan : EMI_Calculator :=
  mkcalc (dec (-1000) 0) (dec 12 2) (mkdate 2024 1 15) 1 "30/360" "A" 1 1
         DayCountConvention.year_fraction_30_360 (dec (-112000) 2).

(** 1000.00 at 12% over 1 year, weekly from the month end 2024-01-31,
    Actual/365. *)
Definition weekly_loan : EMI_Calculator :=
  mkcalc (dec 100000 2) (dec 12 2) (mkdate 2024 1 31) 1 "Actual/365" "W" 52 52
         DayCountConvention.year_fraction_actual_365 (dec 2043 2).

Definition rows_of (self : EMI_Calculator) : list Row :=
  match get_schedule self with Ok rows => rows | Raise _ => [] end.

Definition dates_of (self : EMI_Calculator) : list date :=
  match _generate_payment_dates self with Ok dates => dates | Raise _ => [] end.

(** ** Further vocabulary *)

(** An amount in cents that fits the 28 digits of the context. *)
Definition is_cents_amount (d : Decimal) : Prop :=
  Decimal.expo d = -2 /\ Z.abs (Decimal.coef d) < 10 ^ 28.

(** [sum(column)]: Python starts from the int 0 and adds the decimals from
    left to right, each addition in the context. *)
Fixpoint py_sum (acc : Decimal) (l : list Decimal) : result Decimal :=
  match l with
  | [] => Ok acc
  | x :: rest => acc ← Decimal.add acc x; py_sum acc rest
  end.

(** The three totals that [print_schedule] prints under "Summary":
    payments, principal and interest.  The printing itself is not
    modelled. *)
Definition print_schedule_totals (self : EMI_Calculator)
  : result (Decimal * Decimal * Decimal) :=
  schedule ← get_schedule self;
  total_principal ← py_sum (Decimal.of_Z 0) (map Principal schedule);
  total_interest ← py_sum (Decimal.of_Z 0) (map Interest schedule);
  total ← Decimal.add total_principal total_interest;
  payments ← finance_round total 2;
  rprincipal ← finance_round total_principal 2;
  rinterest ← finance_round total_interest 2;
  Ok (payments, rprincipal, rinterest).

(** The sum of the magnitudes of a column, in cents. *)
Definition column_abs_sum (f : Row -> Decimal) (rows : list Row) : Z :=
  foldr (fun r acc => Z.abs (Decimal.coef (f r)) + acc) 0 rows.

(** What an operation returns on a negated operand when its result is
    negated. *)
Definition negated (m : result Decimal) : result Decimal :=
  match m with Ok d => Ok (Decimal.neg d) | Raise e => Raise e end.


(** ** Further sample loans *)


(** The attributes of a weekly loan over 1 year that starts on 9999-06-01;
    its installment is never computed. *)
Definition late_weekly_loan : EMI_Calculator :=
  mkcalc (dec 100000 2) (dec 12 2) (mkdate 9999 6 1) 1 "Actual/365" "W" 52 52
         DayCountConvention.year_fraction_actual_365 (Decimal.of_Z 0).

(** 1000.00 at 12% over 1 year, monthly from 2024-01-30, one day before a
    month end, 30/360. *)
Definition drifting_loan : EMI_Calculator :=
  mkcalc (dec 100000 2) (dec 12 2) (mkdate 2024 1 30) 1 "30/360" "M" 12 12
         DayCountConvention.year_fraction_30_360 (dec 8885 2).

(** * Properties *)

(** ** The error monad *)

Lemma bind_Ok {A B} (f : A -> result B) (m : result A) (b : B) :
  m ≫= f = Ok b -> exists a, m = Ok a /\ f a = Ok b.
Proof. destruct m as [a|e]; simpl; [eauto | discriminate]. Qed.

Tactic Notation "inv_bind" hyp(H) "as" simple_intropattern(a) ident(Ha) :=
  apply bind_Ok in H; destruct H as (a & Ha & H).

(** ** Digits and rounding of coefficients *)

Section DecimalFacts.

Import Decimal.

Lemma pow10_pos k : 0 < 10 ^ k \/ k < 0.
Proof. destruct (Z.lt_ge_cases k 0); [right; lia | left; apply Z.pow_pos_nonneg; lia]. Qed.

Lemma pow10_gt0 k : 0 <= k -> 0 < 10 ^ k.
Proof. intros; apply Z.pow_pos_nonneg; lia. Qed.

Lemma pow10_S k : 0 <= k -> 10 ^ (k + 1) = 10 * 10 ^ k.
Proof. intros; rewrite Z.pow_add_r by lia; lia. Qed.

Lemma coeff_len_fuel_spec f : forall n,
  0 < n < 2 ^ (Z.of_nat f + 1) ->
  1 <= coeff_len_fuel f n /\
  10 ^ (coeff_len_fuel f n - 1) <= n < 10 ^ (coeff_len_fuel f n).
Proof.
  induction f as [|f IH]; intros n Hn.
  - simpl in *. assert (n = 1) by lia. subst. cbn. lia.
  - cbn [coeff_len_fuel]. destruct (Z.ltb_spec n 10) as [Hlt|Hge].
    + cbn. lia.
    + assert (Hq : 0 < n / 10 < 2 ^ (Z.of_nat f + 1)).
      { replace (Z.of_nat (S f) + 1) with ((Z.of_nat f + 1) + 1) in Hn by lia.
        rewrite Z.pow_add_r in Hn by lia. change (2 ^ 1) with 2 in Hn.
        split.
        - apply Z.div_str_pos; lia.
        - apply Z.div_lt_upper_bound; lia. }
      destruct (IH _ Hq) as (H1 & H2 & H3).
      set (r := coeff_len_fuel f (n / 10)) in *.
      split; [lia|].
      replace (1 + r - 1) with ((r - 1) + 1) by lia.
      replace (1 + r) with (r + 1) by lia.
      rewrite !pow10_S by lia.
      pose proof (Z.div_mod n 10 ltac:(lia)).
      pose proof (Z.mod_pos_bound n 10 ltac:(lia)).
      lia.
Qed.

Lemma coeff_len_spec n :
  0 < n -> 1 <= coeff_len n /\ 10 ^ (coeff_len n - 1) <= n < 10 ^ (coeff_len n).
Proof.
  intros Hn. unfold coeff_len. apply coeff_len_fuel_spec.
  rewrite Z2Nat.id by apply Z.log2_nonneg.
  pose proof (Z.log2_spec n Hn). replace (Z.log2 n + 1) with (Z.succ (Z.log2 n)) by lia.
  lia.
Qed.

Lemma coeff_len_unique n k :
  0 < n -> 10 ^ (k - 1) <= n < 10 ^ k -> coeff_len n = k.
Proof.
  intros Hn [Hlo Hhi].
  destruct (coeff_len_spec n Hn) as (H1 & H2 & H3).
  set (l := coeff_len n) in *.
  assert (0 <= k).
  { destruct (Z.lt_ge_cases k 0) as [Hk|]; [|lia].
    rewrite Z.pow_neg_r in Hhi by lia. lia. }
  destruct (Z.lt_trichotomy l k) as [Hlt|[Heq|Hgt]]; [|assumption|].
  - assert (10 ^ l <= 10 ^ (k - 1)) by (apply Z.pow_le_mono_r; lia). lia.
  - assert (10 ^ k <= 10 ^ (l - 1)) by (apply Z.pow_le_mono_r; lia). lia.
Qed.

Lemma coeff_len_le n k : 0 < n < 10 ^ k -> coeff_len n <= k.
Proof.
  intros [Hn Hk]. destruct (coeff_len_spec n Hn) as (H1 & H2 & H3).
  destruct (Z.le_gt_cases (coeff_len n) k) as [|Hgt]; [assumption|].
  assert (0 <= k).
  { destruct (Z.lt_ge_cases k 0) as [Hk0|]; [|lia].
    rewrite Z.pow_neg_r in Hk by lia. lia. }
  assert (10 ^ k <= 10 ^ (coeff_len n - 1)) by (apply Z.pow_le_mono_r; lia). lia.
Qed.

Lemma coeff_len_lt_pow n k : 0 < n -> coeff_len n <= k -> n < 10 ^ k.
Proof.
  intros Hn Hk. destruct (coeff_len_spec n Hn) as (H1 & H2 & H3).
  assert (10 ^ coeff_len n <= 10 ^ k) by (apply Z.pow_le_mono_r; lia). lia.
Qed.

Lemma coeff_len_ge_pow n k : 0 < n -> 0 <= k -> 10 ^ k <= n -> k < coeff_len n.
Proof.
  intros Hn Hk0 Hk. destruct (coeff_len_spec n Hn) as (H1 & H2 & H3).
  destruct (Z.lt_ge_cases k (coeff_len n)) as [|Hge]; [assumption|].
  assert (10 ^ coeff_len n <= 10 ^ k) by (apply Z.pow_le_mono_r; lia). lia.
Qed.

End DecimalFacts.

(** ** Rounding to the context and quantizing to cents *)

Ltac ctx_consts :=
  change Decimal.Etop with 999972 in *;
  change Decimal.Etiny with (-1000026) in *;
  change Decimal.Emax with 999999 in *;
  change Decimal.prec with 28 in *.

Section FixFacts.

Import Decimal.

Lemma abs_sgn_mul c x : c <> 0 -> 0 <= x -> Z.abs (Z.sgn c * x) = x.
Proof. intros Hc Hx. destruct c; cbn; try congruence; lia. Qed.

(** A coefficient of at most 28 digits at a moderate exponent is kept. *)
Lemma fix_id c e :
  Z.abs c < 10 ^ 28 -> Etiny <= e <= Etop -> fix_ (mk c e) = Ok (mk c e).
Proof.
  intros Hc He. unfold fix_. cbn [coef expo].
  destruct (Z.eqb_spec c 0) as [->|Hc0].
  - f_equal. f_equal. ctx_consts. lia.
  - assert (Hn : 0 < Z.abs c) by lia.
    pose proof (coeff_len_le (Z.abs c) 28 ltac:(lia)) as Hl.
    destruct (coeff_len_spec _ Hn) as (Hl1 & _).
    ctx_consts.
    destruct (Z.ltb_spec 999972 (coeff_len (Z.abs c) + e - 28)); [lia|].
    destruct (Z.ltb_spec e (Z.max (coeff_len (Z.abs c) + e - 28) (-1000026)));
      [lia|reflexivity].
Qed.

(** When rounding to the context drops digits, the result has exactly 28
    digits, the sign of the operand and a larger exponent. *)
Lemma fix_rounded_form c e d' :
  28 < coeff_len (Z.abs c) -> c <> 0 -> Etiny <= e ->
  fix_ (mk c e) = Ok d' ->
  exists x, coef d' = Z.sgn c * x /\ 10 ^ 27 <= x < 10 ^ 28 /\
            coeff_len (Z.abs c) + e - 28 <= expo d'.
Proof.
  intros HL Hc He. unfold fix_. cbn [coef expo].
  destruct (Z.eqb_spec c 0) as [|_]; [contradiction|].
  set (n := Z.abs c) in *. assert (Hn : 0 < n) by (unfold n; lia).
  destruct (coeff_len_spec n Hn) as (_ & Hlo & Hhi).
  set (L := coeff_len n) in *.
  ctx_consts.
  destruct (Z.ltb_spec 999972 (L + e - 28)); [discriminate|].
  rewrite Z.max_l by lia.
  destruct (Z.ltb_spec e (L + e - 28)); [|lia].
  replace (L + e - 28 - e) with (L - 28) by lia.
  set (m := 10 ^ (L - 28)).
  assert (Hm : 0 < m) by (apply pow10_gt0; lia).
  assert (Hsplit : 10 ^ L = m * 10 ^ 28).
  { unfold m. rewrite <- Z.pow_add_r by lia. f_equal. lia. }
  assert (Hsplit' : 10 ^ (L - 1) = m * 10 ^ 27).
  { unfold m. rewrite <- Z.pow_add_r by lia. f_equal. lia. }
  assert (Hq : 10 ^ 27 <= n / m < 10 ^ 28).
  { split.
    - apply Z.div_le_lower_bound; lia.
    - apply Z.div_lt_upper_bound; lia. }
  destruct (rounds_up n m).
  - destruct (Z.ltb_spec 28 (coeff_len (n / m + 1))) as [Hcarry|Hnc].
    + assert (n / m + 1 = 10 ^ 28).
      { destruct (Z.eq_dec (n / m + 1) (10 ^ 28)) as [|Hne]; [assumption|].
        pose proof (coeff_len_le (n / m + 1) 28 ltac:(lia)). lia. }
      destruct (Z.ltb_spec 999972 (L + e - 28 + 1)); [discriminate|].
      intros [= <-]. cbn [coef expo].
      exists ((n / m + 1) / 10). split; [reflexivity|].
      replace (n / m + 1) with (10 ^ 28) by lia.
      change (10 ^ 28 / 10) with (10 ^ 27). lia.
    + destruct (Z.ltb_spec 999972 (L + e - 28)); [discriminate|].
      intros [= <-]. cbn [coef expo].
      exists (n / m + 1). split; [reflexivity|].
      pose proof (coeff_len_lt_pow (n / m + 1) 28 ltac:(lia) ltac:(lia)). lia.
  - destruct (Z.ltb_spec 999972 (L + e - 28)); [discriminate|].
    intros [= <-]. cbn [coef expo].
    exists (n / m). split; [reflexivity|]. lia.
Qed.

Lemma fix_rounded c e d' :
  28 < coeff_len (Z.abs c) -> c <> 0 -> Etiny <= e ->
  fix_ (mk c e) = Ok d' ->
  10 ^ 27 <= Z.abs (coef d') < 10 ^ 28 /\
  coeff_len (Z.abs c) + e - 28 <= expo d'.
Proof.
  intros HL Hc He H.
  destruct (fix_rounded_form c e d' HL Hc He H) as (x & -> & Hx & Hexp).
  rewrite abs_sgn_mul by (try assumption; lia). auto.
Qed.

(** The result of a context operation never has more than 28 digits. *)
Lemma fix_bounded d d' :
  Etiny <= expo d -> fix_ d = Ok d' -> Z.abs (coef d') < 10 ^ 28.
Proof.
  intros He H. destruct d as [c e]. cbn [expo] in He.
  destruct (Z.eq_dec c 0) as [->|Hc].
  - unfold fix_ in H. cbn in H. injection H as <-. cbn. lia.
  - destruct (Z.le_gt_cases (coeff_len (Z.abs c)) 28) as [Hle|Hgt].
    + assert (Z.abs c < 10 ^ 28) by (apply coeff_len_lt_pow; lia).
      destruct (Z.le_gt_cases e Etop).
      * rewrite fix_id in H by (try assumption; lia). injection H as <-. assumption.
      * unfold fix_ in H. cbn [coef expo] in H.
        destruct (Z.eqb_spec c 0); [contradiction|].
        assert (0 < Z.abs c) by lia.
        destruct (coeff_len_spec (Z.abs c) ltac:(lia)) as (Hl1 & _).
        ctx_consts.
        destruct (Z.ltb_spec 999972 (coeff_len (Z.abs c) + e - 28)); [discriminate|].
        destruct (Z.ltb_spec e (Z.max (coeff_len (Z.abs c) + e - 28) (-1000026))); [lia|].
        injection H as <-. assumption.
    + apply (fix_rounded c e d') in H; try assumption; lia.
Qed.

(** Rounding to the context never lowers an exponent that is at least -2. *)
Lemma fix_expo_ge d d' :
  -2 <= expo d -> fix_ d = Ok d' -> -2 <= expo d'.
Proof.
  intros He H. destruct d as [c e]. cbn [expo] in He.
  unfold fix_ in H. cbn [coef expo] in H.
  destruct (Z.eqb_spec c 0) as [->|Hc].
  - injection H as <-. cbn. ctx_consts. lia.
  - destruct (Z.le_gt_cases (coeff_len (Z.abs c)) 28) as [Hle|Hgt].
    + destruct (coeff_len_spec (Z.abs c) ltac:(lia)) as (Hl1 & _).
      ctx_consts.
      destruct (Z.ltb_spec 999972 (coeff_len (Z.abs c) + e - 28)); [discriminate|].
      destruct (Z.ltb_spec e (Z.max (coeff_len (Z.abs c) + e - 28) (-1000026))); [lia|].
      injection H as <-. assumption.
    + assert (H' : fix_ (mk c e) = Ok d').
      { unfold fix_. cbn [coef expo]. destruct (Z.eqb_spec c 0); [contradiction|exact H]. }
      apply fix_rounded in H'; try assumption; [lia|ctx_consts; lia].
Qed.

End FixFacts.

Section QuantizeFacts.

Import Decimal.

Lemma finance_round_2 d : finance_round d 2 = quantize d (-2).
Proof. reflexivity. Qed.

Lemma quantize_unfold d :
  quantize d (-2) =
  if coef d =? 0 then fix_ (mk 0 (-2))
  else if Emax <? adjusted d then Raise InvalidOperation
  else if 28 <? adjusted d - -2 + 1 then Raise InvalidOperation
  else
    let ans := rescale d (-2) in
    if Emax <? adjusted ans then Raise InvalidOperation
    else if 28 <? coeff_len (Z.abs (coef ans)) then Raise InvalidOperation
    else fix_ ans.
Proof. reflexivity. Qed.

(** Quantizing to cents is rescaling, and succeeds only within 28 digits. *)
Lemma quantize_spec d q :
  quantize d (-2) = Ok q ->
  q = rescale d (-2) /\ Z.abs (coef q) < 10 ^ 28 /\ expo q = -2.
Proof.
  rewrite quantize_unfold.
  destruct (Z.eqb_spec (coef d) 0) as [Hz|Hnz].
  - rewrite fix_id by (ctx_consts; cbn; lia). intros [= <-].
    unfold rescale. rewrite Hz. cbn [Z.sgn]. rewrite !Z.mul_0_l.
    destruct (-2 <=? expo d); cbn; repeat split; lia.
  - destruct (Emax <? adjusted d); [discriminate|].
    destruct (28 <? adjusted d - -2 + 1); [discriminate|]. cbv zeta.
    destruct (Emax <? adjusted (rescale d (-2))); [discriminate|].
    destruct (Z.ltb_spec 28 (coeff_len (Z.abs (coef (rescale d (-2))))))
      as [|Hl]; [discriminate|].
    assert (He : expo (rescale d (-2)) = -2).
    { unfold rescale. destruct (-2 <=? expo d); reflexivity. }
    assert (Hb : Z.abs (coef (rescale d (-2))) < 10 ^ 28).
    { destruct (Z.eq_dec (coef (rescale d (-2))) 0) as [->|Hne]; [cbn; lia|].
      apply coeff_len_lt_pow; lia. }
    destruct (rescale d (-2)) as [c' e']. cbn [coef expo] in *. subst e'.
    rewrite fix_id by (try assumption; ctx_consts; lia).
    intros [= <-]. cbn. auto.
Qed.

Lemma quantize_cents c :
  Z.abs c < 10 ^ 28 -> quantize (cents c) (-2) = Ok (cents c).
Proof.
  intros Hc. rewrite quantize_unfold. unfold cents. cbn [coef expo].
  destruct (Z.eqb_spec c 0) as [->|Hnz].
  - apply fix_id; [cbn; lia | ctx_consts; lia].
  - assert (Hn : 0 < Z.abs c) by lia.
    pose proof (coeff_len_le (Z.abs c) 28 ltac:(lia)) as Hl.
    destruct (coeff_len_spec _ Hn) as (Hl1 & _).
    assert (Hr : rescale (mk c (-2)) (-2) = mk c (-2)).
    { unfold rescale. cbn [coef expo]. change (-2 <=? -2) with true. cbv iota.
      change (-2 - -2) with 0. rewrite Z.pow_0_r, Z.mul_1_r. reflexivity. }
    cbv zeta. rewrite Hr. unfold adjusted. cbn [coef expo]. ctx_consts.
    destruct (Z.ltb_spec 999999 (-2 + coeff_len (Z.abs c) - 1)); [lia|].
    destruct (Z.ltb_spec 28 (-2 + coeff_len (Z.abs c) - 1 - -2 + 1)); [lia|].
    destruct (Z.ltb_spec 28 (coeff_len (Z.abs c))); [lia|].
    apply fix_id; [assumption | ctx_consts; lia].
Qed.

(** Above the cent, quantizing only rewrites the coefficient. *)
Lemma quantize_ge d q :
  -2 <= expo d -> quantize d (-2) = Ok q ->
  q = cents (coef d * 10 ^ (expo d + 2)) /\ Z.abs (coef q) < 10 ^ 28.
Proof.
  intros He H. apply quantize_spec in H as (-> & Hb & _). split; [|assumption].
  unfold rescale, cents. destruct (Z.leb_spec (-2) (expo d)); [|lia].
  replace (expo d - -2) with (expo d + 2) by lia. reflexivity.
Qed.

(** The key fact for amounts in cents: if the result of a context
    operation whose exact value is [c] cents can still be quantized to
    cents, the operation was exact. *)
Lemma fix_quantize_exact c d' q :
  fix_ (cents c) = Ok d' -> quantize d' (-2) = Ok q ->
  Z.abs c < 10 ^ 28 /\ d' = cents c /\ q = cents c.
Proof.
  intros Hf Hq.
  destruct (Z.lt_ge_cases (Z.abs c) (10 ^ 28)) as [Hlt|Hge].
  - unfold cents in Hf. rewrite fix_id in Hf by (try assumption; ctx_consts; lia).
    injection Hf as <-. fold (cents c) in Hq. rewrite quantize_cents in Hq by assumption.
    injection Hq as <-. auto.
  - exfalso. assert (Hc : c <> 0) by lia.
    pose proof (coeff_len_ge_pow (Z.abs c) 28 ltac:(lia) ltac:(lia) Hge) as HL.
    apply fix_rounded in Hf; [|assumption..|ctx_consts; lia].
    destruct Hf as ((Hlo & Hhi) & He).
    assert (Hlen : coeff_len (Z.abs (coef d')) = 28)
      by (apply coeff_len_unique; [lia | split; [exact Hlo | exact Hhi]]).
    rewrite quantize_unfold in Hq.
    destruct (Z.eqb_spec (coef d') 0); [lia|].
    unfold adjusted in Hq at 1 2. rewrite Hlen in Hq.
    destruct (Emax <? expo d' + 28 - 1); [discriminate|].
    destruct (Z.ltb_spec 28 (expo d' + 28 - 1 - -2 + 1)); [discriminate|lia].
Qed.

(** Operands at exponent -2 or above add exactly at exponent -2. *)
Lemma add_cents_r a b :
  -2 <= expo a -> add a (cents b) = fix_ (cents (coef a * 10 ^ (expo a + 2) + b)).
Proof.
  intros He. unfold add, cents. cbn [coef expo].
  rewrite Z.min_r by lia. replace (expo a - -2) with (expo a + 2) by lia.
  change (-2 - -2) with 0. rewrite Z.pow_0_r, Z.mul_1_r. reflexivity.
Qed.

Lemma add_cents_l a b :
  -2 <= expo b -> add (cents a) b = fix_ (cents (a + coef b * 10 ^ (expo b + 2))).
Proof.
  intros He. unfold add, cents. cbn [coef expo].
  rewrite Z.min_l by lia. replace (expo b - -2) with (expo b + 2) by lia.
  change (-2 - -2) with 0. rewrite Z.pow_0_r, Z.mul_1_r. reflexivity.
Qed.

Lemma sub_cents_r a b :
  -2 <= expo a -> sub a (cents b) = fix_ (cents (coef a * 10 ^ (expo a + 2) - b)).
Proof.
  intros He. unfold sub. change (neg (cents b)) with (cents (- b)).
  rewrite add_cents_r by assumption.
  replace (coef a * 10 ^ (expo a + 2) + - b) with (coef a * 10 ^ (expo a + 2) - b) by lia.
  reflexivity.
Qed.

Lemma add_expo_ge a b r :
  -2 <= expo a -> -2 <= expo b -> add a b = Ok r -> -2 <= expo r.
Proof.
  intros Ha Hb H. unfold add in H. eapply fix_expo_ge; [|exact H]. cbn. lia.
Qed.

Lemma add_bounded a b r :
  Etiny <= expo a -> Etiny <= expo b -> add a b = Ok r -> Z.abs (coef r) < 10 ^ 28.
Proof.
  intros Ha Hb H. unfold add in H. eapply fix_bounded; [|exact H]. cbn. lia.
Qed.

End QuantizeFacts.

(** ** One period of the schedule *)

Section ScheduleStep.

Import Decimal.

Lemma add_cents a b : add (cents a) (cents b) = fix_ (cents (a + b)).
Proof.
  rewrite add_cents_r by (cbn; lia). cbn [coef expo cents].
  change (-2 + 2) with 0. rewrite Z.pow_0_r, Z.mul_1_r. reflexivity.
Qed.

Lemma sub_cents a b : sub (cents a) (cents b) = fix_ (cents (a - b)).
Proof.
  rewrite sub_cents_r by (cbn; lia). cbn [coef expo cents].
  change (-2 + 2) with 0. rewrite Z.pow_0_r, Z.mul_1_r. reflexivity.
Qed.

Lemma finance_round_cents d q :
  finance_round d 2 = Ok q -> exists c, q = cents c /\ Z.abs c < 10 ^ 28.
Proof.
  rewrite finance_round_2. intros H. apply quantize_spec in H as (_ & Hb & He).
  destruct q as [c e]. cbn in *. subst e. exists c. auto.
Qed.

Lemma sub_expo_ge a b r :
  -2 <= expo a -> -2 <= expo b -> sub a b = Ok r -> -2 <= expo r.
Proof. intros Ha Hb. unfold sub. apply add_expo_ge; [assumption | cbn; lia]. Qed.

Variable self : EMI_Calculator.
Variable E : Z.
Hypothesis emi_cents : emi self = cents E.
Hypothesis emi_bound : Z.abs E < 10 ^ 28.

(** A period before the last: every amount is exact. *)
Lemma schedule_step_inner i prev pay b row b' :
  i <> terms self -> -2 <= expo b ->
  schedule_step self i prev pay b = Ok (row, b') ->
  exists I,
    Payment_No row = i /\ Payment_Date row = pay /\
    Interest row = cents I /\ Principal row = cents (E - I) /\
    EMI row = cents E /\ Opening_Balance row = cents (cents_value b) /\
    Closing_Balance row = cents (cents_value b - (E - I)) /\
    b' = cents (cents_value b - (E - I)).
Proof.
  intros Hi Hb H. unfold schedule_step in H.
  inv_bind H as [yf days] Hyf.
  inv_bind H as br Hbr. inv_bind H as bry Hbry.
  inv_bind H as interest Hint.
  inv_bind H as principal Hprin.
  inv_bind H as balance Hbal.
  inv_bind H as [[principal' e] balance'] Hbranch.
  destruct (Z.eqb_spec i (terms self)) as [|_]; [contradiction|].
  injection Hbranch as <- <- <-.
  inv_bind H as ob Hob. inv_bind H as opening Hopen.
  inv_bind H as rprincipal Hrp. inv_bind H as rinterest Hri.
  inv_bind H as remi Hre. inv_bind H as closing Hcl.
  injection H as <- <-.
  destruct (finance_round_cents _ _ Hint) as (I & -> & HI).
  rewrite emi_cents, sub_cents in Hprin.
  rewrite finance_round_2 in *.
  destruct (fix_quantize_exact _ _ _ Hprin Hrp) as (Hp & -> & ->).
  rewrite sub_cents_r in Hbal by assumption.
  destruct (fix_quantize_exact _ _ _ Hbal Hcl) as (Hc & -> & ->).
  rewrite add_cents in Hob.
  destruct (fix_quantize_exact _ _ _ Hob Hopen) as (Ho & -> & ->).
  rewrite quantize_cents in Hri by assumption. injection Hri as <-.
  rewrite emi_cents, quantize_cents in Hre by assumption. injection Hre as <-.
  exists I. cbn [Payment_No Payment_Date Interest Principal EMI Opening_Balance Closing_Balance].
  repeat split; try reflexivity.
  f_equal. unfold cents_value. lia.
Qed.

(** The last period: the balance is folded into the principal. *)
Lemma schedule_step_last i prev pay b row b' :
  i = terms self -> -2 <= expo b ->
  schedule_step self i prev pay b = Ok (row, b') ->
  exists I S,
    Payment_No row = i /\ Payment_Date row = pay /\
    Interest row = cents I /\ Principal row = cents S /\
    EMI row = cents (S + I) /\ Opening_Balance row = cents S /\
    Closing_Balance row = cents 0 /\ b' = cents 0 /\
    Z.abs I < 10 ^ 28 /\
    (Z.abs (E - I) < 10 ^ 28 -> Z.abs (cents_value b - (E - I)) < 10 ^ 28 ->
     S = cents_value b).
Proof.
  intros Hi Hb H. unfold schedule_step in H.
  inv_bind H as [yf days] Hyf.
  inv_bind H as br Hbr. inv_bind H as bry Hbry.
  inv_bind H as interest Hint.
  inv_bind H as p0 Hp0eq.
  inv_bind H as x Hxeq.
  inv_bind H as [[s' e] balance'] Hbranch.
  destruct (Z.eqb_spec i (terms self)) as [_|]; [|contradiction].
  inv_bind Hbranch as s Hseq. inv_bind Hbranch as e0 Heeq.
  injection Hbranch as <- <- <-.
  inv_bind H as ob Hob. inv_bind H as opening Hopen.
  inv_bind H as rprincipal Hrp. inv_bind H as rinterest Hri.
  inv_bind H as remi Hre. inv_bind H as closing Hcl.
  injection H as <- <-.
  destruct (finance_round_cents _ _ Hint) as (I & -> & HI).
  rewrite emi_cents, sub_cents in Hp0eq.
  rewrite finance_round_2 in *.
  assert (Hp0 : -2 <= expo p0) by (eapply fix_expo_ge; [|exact Hp0eq]; cbn; lia).
  assert (Hx : -2 <= expo x) by (eapply sub_expo_ge; [| |exact Hxeq]; assumption).
  assert (Hs : -2 <= expo s) by (eapply add_expo_ge; [| |exact Hseq]; assumption).
  destruct (quantize_ge _ _ Hs Hrp) as (-> & HS).
  set (S := coef s * 10 ^ (expo s + 2)) in *. cbn [coef cents] in HS.
  change (mk 0 (-2)) with (cents 0) in *.
  rewrite add_cents_l in Hob by assumption. fold S in Hob. rewrite Z.add_0_l in Hob.
  unfold cents in Hob at 1. rewrite fix_id in Hob by (try assumption; ctx_consts; lia).
  injection Hob as <-. fold (cents S) in Hopen.
  rewrite quantize_cents in Hopen by assumption. injection Hopen as <-.
  rewrite quantize_cents in Hri by assumption. injection Hri as <-.
  rewrite add_cents_r in Heeq by assumption. fold S in Heeq.
  destruct (fix_quantize_exact _ _ _ Heeq Hre) as (He & -> & ->).
  rewrite quantize_cents in Hcl by (cbn; lia). injection Hcl as <-.
  exists I, S. cbn [Payment_No Payment_Date Interest Principal EMI Opening_Balance Closing_Balance].
  repeat split; try reflexivity; try assumption.
  intros Hsmall1 Hsmall2.
  unfold cents in Hp0eq at 1. rewrite fix_id in Hp0eq by (try assumption; ctx_consts; lia).
  injection Hp0eq as <-. fold (cents (E - I)) in *.
  rewrite sub_cents_r in Hxeq by assumption. fold (cents_value b) in Hxeq.
  unfold cents in Hxeq at 1. rewrite fix_id in Hxeq by (try assumption; ctx_consts; lia).
  injection Hxeq as <-. fold (cents (cents_value b - (E - I))) in *.
  rewrite add_cents in Hseq.
  replace (E - I + (cents_value b - (E - I))) with (cents_value b) in Hseq by lia.
  assert (Hq : quantize s (-2) = Ok (cents S)).
  { rewrite quantize_unfold. rewrite quantize_unfold in Hrp. exact Hrp. }
  destruct (fix_quantize_exact _ _ _ Hseq Hq) as (_ & _ & Heq).
  injection Heq as Heq. exact Heq.
Qed.

End ScheduleStep.

(** ** The loops *)

Section Loops.

Import Decimal.

Lemma dates_loop_eq n freq : forall dates d,
  dates_loop n freq dates d = (new ← roll_dates n freq d; Ok (dates ++ new)).
Proof.
  induction n as [|n IH]; intros dates d; cbn [dates_loop roll_dates].
  - cbn. rewrite app_nil_r. reflexivity.
  - destruct (roll freq d) as [d'|e]; [|reflexivity]. cbn.
    rewrite IH. destruct (roll_dates n freq d') as [rest|e]; [|reflexivity].
    cbn. rewrite <- app_assoc. reflexivity.
Qed.

Lemma roll_dates_length n freq : forall d l,
  roll_dates n freq d = Ok l -> length l = n.
Proof.
  induction n as [|n IH]; intros d l H; cbn in H.
  - injection H as <-. reflexivity.
  - inv_bind H as d' Hd. inv_bind H as rest Hr. injection H as <-.
    cbn. f_equal. eauto.
Qed.

Lemma generate_payment_dates_inv self dates :
  _generate_payment_dates self = Ok dates ->
  exists new,
    dates = start_date self :: new /\
    roll_dates (Z.to_nat (terms self)) (frequency self) (start_date self) = Ok new /\
    length new = Z.to_nat (terms self).
Proof.
  unfold _generate_payment_dates. rewrite dates_loop_eq. intros H.
  inv_bind H as new Hn. injection H as <-. exists new.
  split; [reflexivity|]. split; [assumption|]. eapply roll_dates_length; eassumption.
Qed.

Lemma schedule_loop_eq self items : forall schedule b p,
  schedule_loop self items schedule b p =
  (rows ← schedule_rows self items b p; Ok (schedule ++ rows)).
Proof.
  induction items as [|[i pay] rest IH]; intros schedule b p;
    cbn [schedule_loop schedule_rows].
  - cbn. rewrite app_nil_r. reflexivity.
  - destruct (schedule_step self i p pay b) as [[row b']|e]; [|reflexivity]. cbn.
    rewrite IH. destruct (schedule_rows self rest b' pay) as [rows|e]; [|reflexivity].
    cbn. rewrite <- app_assoc. reflexivity.
Qed.

Lemma get_schedule_inv self rows :
  get_schedule self = Ok rows ->
  exists new,
    roll_dates (Z.to_nat (terms self)) (frequency self) (start_date self) = Ok new /\
    length new = Z.to_nat (terms self) /\
    schedule_rows self (enumerate 1 new) (P self) (start_date self) = Ok rows.
Proof.
  unfold get_schedule. intros H. inv_bind H as dates Hd.
  apply generate_payment_dates_inv in Hd as (new & -> & Hn & Hl).
  rewrite schedule_loop_eq in H. inv_bind H as rows' Hr. injection H as <-.
  exists new. cbn [drop] in Hr. auto.
Qed.

Lemma enumerate_length l : forall k, length (enumerate k l) = length l.
Proof. induction l as [|x l IH]; intros k; cbn; [reflexivity|f_equal; apply IH]. Qed.

Lemma schedule_rows_length self items : forall b p rows,
  schedule_rows self items b p = Ok rows -> length rows = length items.
Proof.
  induction items as [|[i pay] rest IH]; intros b p rows H; cbn in H.
  - injection H as <-. reflexivity.
  - inv_bind H as [row b'] Hs. inv_bind H as rows' Hr. injection H as <-.
    cbn. f_equal. eauto.
Qed.



End Loops.

(** ** The final row closes at zero *)


(** ** What the constructor establishes *)

Section Constructor.

Import Decimal.

Lemma init_inv principal annual_rate start yrs conv freq self :
  init principal annual_rate start yrs conv freq = Ok self ->
  exists r ppy f e,
    div annual_rate (of_Z 100) = Ok r /\
    periods_table !! freq = Some ppy /\
    dcc_table !! conv = Some f /\
    calculate_emi (mkcalc principal r start yrs conv freq ppy (yrs * ppy) f (of_Z 0))
      = Ok e /\
    self = mkcalc principal r start yrs conv freq ppy (yrs * ppy) f e.
Proof.
  unfold init. intros H.
  inv_bind H as r Hr. inv_bind H as ppy Hp. inv_bind H as f Hf.
  inv_bind H as e He. injection H as <-.
  destruct (periods_table !! freq) as [ppy'|] eqn:Hp'; [|discriminate].
  destruct (dcc_table !! conv) as [f'|] eqn:Hf'; [|discriminate].
  cbn in Hp, Hf. injection Hp as ->. injection Hf as ->.
  exists r, ppy, f, e. auto.
Qed.

Lemma init_intro principal annual_rate start yrs conv freq r ppy f e :
  div annual_rate (of_Z 100) = Ok r ->
  periods_table !! freq = Some ppy ->
  dcc_table !! conv = Some f ->
  calculate_emi (mkcalc principal r start yrs conv freq ppy (yrs * ppy) f (of_Z 0))
    = Ok e ->
  init principal annual_rate start yrs conv freq
  = Ok (mkcalc principal r start yrs conv freq ppy (yrs * ppy) f e).
Proof.
  intros Hr Hp Hf He. unfold init. rewrite Hr, Hp, Hf. cbn.
  rewrite He. reflexivity.
Qed.

Lemma calculate_emi_cents self e :
  calculate_emi self = Ok e -> exists E, e = cents E /\ Z.abs E < 10 ^ 28.
Proof.
  unfold calculate_emi. intros H.
  inv_bind H as dates Hd. inv_bind H as F HF. inv_bind H as q Hq.
  eapply finance_round_cents; eassumption.
Qed.

Lemma init_emi_cents principal annual_rate start yrs conv freq self :
  init principal annual_rate start yrs conv freq = Ok self ->
  exists E, emi self = cents E /\ Z.abs E < 10 ^ 28.
Proof.
  intros H. apply init_inv in H as (r & ppy & f & e & _ & _ & _ & He & ->).
  cbn [emi]. eapply calculate_emi_cents; eassumption.
Qed.

Lemma periods_table_values freq ppy :
  periods_table !! freq = Some ppy ->
  (freq, ppy) ∈ [("W", 52); ("BW", 26); ("M", 12); ("Q", 4); ("S", 2); ("A", 1)].
Proof. intros H. apply elem_of_list_to_map_2 in H. exact H. Qed.

Lemma periods_table_pos freq ppy : periods_table !! freq = Some ppy -> 1 <= ppy.
Proof.
  intros H. apply periods_table_values in H.
  repeat (apply elem_of_cons in H as [[= -> ->]|H]; [lia|]).
  apply elem_of_nil in H. contradiction.
Qed.

End Constructor.

(** ** The rows of the schedule *)

Section Rows.

Import Decimal.

Variable self : EMI_Calculator.
Variable E : Z.
Hypothesis emi_cents : emi self = cents E.
Hypothesis emi_bound : Z.abs E < 10 ^ 28.

Lemma schedule_step_balanced i prev pay b row b' :
  -2 <= expo b -> schedule_step self i prev pay b = Ok (row, b') ->
  balanced_row row /\ expo b' = -2.
Proof.
  intros Hb H. destruct (Z.eq_dec i (terms self)) as [Hi|Hi].
  - destruct (schedule_step_last self E emi_cents _ _ _ _ _ _ Hi Hb H)
      as (I & S & _ & _ & HI & HP & HE & HO & HC & -> & _).
    unfold balanced_row, row_in_cents. rewrite HI, HP, HE, HO, HC. cbn.
    repeat split; lia.
  - destruct (schedule_step_inner self E emi_cents emi_bound _ _ _ _ _ _ Hi Hb H)
      as (I & _ & _ & HI & HP & HE & HO & HC & ->).
    unfold balanced_row, row_in_cents. rewrite HI, HP, HE, HO, HC. cbn.
    repeat split; lia.
Qed.

Lemma schedule_rows_balanced items : forall b p rows,
  -2 <= expo b -> schedule_rows self items b p = Ok rows ->
  Forall balanced_row rows.
Proof.
  induction items as [|[i pay] rest IH]; intros b p rows Hb H; cbn in H.
  - injection H as <-. constructor.
  - inv_bind H as [row b'] Hs. inv_bind H as rows' Hr. injection H as <-.
    apply schedule_step_balanced in Hs as [Hrow Hb']; [|assumption].
    constructor; [assumption|]. eapply IH; [|exact Hr]. lia.
Qed.



End Rows.

(** ** Division of small integers *)

Section DivisionFacts.

Import Decimal.

(** Away from the exponent limits, rounding to the context succeeds and
    keeps the sign. *)
Lemma fix_total c e :
  c <> 0 -> Etiny <= e -> coeff_len (Z.abs c) + e - 28 + 1 <= Etop ->
  exists d', fix_ (mk c e) = Ok d' /\ Z.sgn (coef d') = Z.sgn c.
Proof.
  intros Hc He Htop.
  assert (Hn : 0 < Z.abs c) by lia.
  destruct (coeff_len_spec _ Hn) as (Hl1 & Hlo & Hhi).
  destruct (Z.le_gt_cases (coeff_len (Z.abs c)) 28) as [Hle|Hgt].
  - exists (mk c e). split; [|reflexivity].
    unfold fix_. cbn [coef expo]. destruct (Z.eqb_spec c 0); [contradiction|].
    ctx_consts.
    destruct (Z.ltb_spec 999972 (coeff_len (Z.abs c) + e - 28)); [lia|].
    destruct (Z.ltb_spec e (Z.max (coeff_len (Z.abs c) + e - 28) (-1000026)));
      [lia|reflexivity].
  - destruct (fix_ (mk c e)) as [d'|ex] eqn:Hf.
    + exists d'. split; [reflexivity|].
      apply fix_rounded_form in Hf as (x & -> & Hx & _); try assumption.
      destruct c, x; cbn in *; try lia; congruence.
    + exfalso. unfold fix_ in Hf. cbn [coef expo] in Hf.
      destruct (Z.eqb_spec c 0); [contradiction|].
      set (L := coeff_len (Z.abs c)) in *. ctx_consts.
      destruct (Z.ltb_spec 999972 (L + e - 28)); [lia|].
      rewrite Z.max_l in Hf by lia.
      destruct (Z.ltb_spec e (L + e - 28)); [|discriminate].
      destruct (rounds_up _ _).
      * destruct (28 <? coeff_len _).
        -- destruct (Z.ltb_spec 999972 (L + e - 28 + 1)); [lia|discriminate].
        -- destruct (Z.ltb_spec 999972 (L + e - 28)); [lia|discriminate].
      * destruct (Z.ltb_spec 999972 (L + e - 28)); [lia|discriminate].
Qed.

Lemma strip_zeros_spec steps : forall q e ideal c' e',
  0 < q -> strip_zeros steps q e ideal = (c', e') ->
  0 < c' <= q /\ e <= e' /\ (e <= ideal -> e' <= ideal).
Proof.
  induction steps as [|k IH]; intros q e ideal c' e' Hq H; cbn in H.
  - injection H as <- <-. lia.
  - destruct (Z.ltb_spec e ideal) as [Hlt|Hge]; cbn [andb] in H.
    + destruct (Z.eqb_spec (q mod 10) 0) as [Hz|Hnz].
      * assert (Hq10 : q = 10 * (q / 10)).
        { pose proof (Z.div_mod q 10 ltac:(lia)). lia. }
        apply IH in H; [|lia]. lia.
      * injection H as <- <-. lia.
    + injection H as <- <-. lia.
Qed.

(** [Decimal(a) / Decimal(b)] for integers of moderate size never raises
    for [b <> 0]; the quotient has the sign of the operands. *)
Lemma div_int_total a b :
  b <> 0 -> Z.abs a < 10 ^ 28 -> Z.abs b < 10 ^ 28 ->
  exists q, div (of_Z a) (of_Z b) = Ok q /\
            Z.sgn (coef q) = Z.sgn a * Z.sgn b.
Proof.
  intros Hb Ha Hbb. unfold div, of_Z. cbn [coef expo].
  destruct (Z.eqb_spec b 0) as [|_]; [contradiction|].
  destruct (Z.eqb_spec a 0) as [->|Ha0].
  - exists (mk 0 0). split; [|reflexivity]. apply fix_id; [cbn; lia|ctx_consts; lia].
  - set (n1 := Z.abs a). set (n2 := Z.abs b).
    assert (Hn1 : 0 < n1) by (unfold n1; lia).
    assert (Hn2 : 0 < n2) by (unfold n2; lia).
    destruct (coeff_len_spec _ Hn1) as (Hl1 & Hlo1 & Hhi1).
    destruct (coeff_len_spec _ Hn2) as (Hl2 & Hlo2 & Hhi2).
    pose proof (coeff_len_le n1 28 ltac:(unfold n1; lia)) as Hl1'.
    pose proof (coeff_len_le n2 28 ltac:(unfold n2; lia)) as Hl2'.
    set (l1 := coeff_len n1) in *. set (l2 := coeff_len n2) in *.
    ctx_consts. set (shift := l2 - l1 + 28 + 1).
    assert (Hshift : 0 <= shift) by (unfold shift; lia).
    destruct (Z.leb_spec 0 shift); [|lia].
    assert (Hnum_lo : 10 ^ (l2 + 28) <= n1 * 10 ^ shift).
    { replace (l2 + 28) with ((l1 - 1) + shift) by (unfold shift; lia).
      rewrite Z.pow_add_r by lia. apply Z.mul_le_mono_nonneg_r; [|assumption].
      apply Z.pow_nonneg. lia. }
    assert (Hnum_hi : n1 * 10 ^ shift < 10 ^ (l2 + 29)).
    { replace (l2 + 29) with (l1 + shift) by (unfold shift; lia).
      rewrite Z.pow_add_r by lia. apply Z.mul_lt_mono_pos_r; [|assumption].
      apply pow10_gt0. lia. }
    assert (Hsplit : 10 ^ (l2 + 28) = 10 ^ l2 * 10 ^ 28) by (apply Z.pow_add_r; lia).
    assert (Hsplit' : 10 ^ (l2 + 29) = 10 ^ (l2 - 1) * 10 ^ 30).
    { rewrite <- Z.pow_add_r by lia. f_equal. lia. }
    pose proof (pow10_gt0 (l2 - 1) ltac:(lia)) as Hp.
    pose proof (Z.div_eucl_eq (n1 * 10 ^ shift) n2 ltac:(lia)) as Heq.
    pose proof (Z.mod_pos_bound (n1 * 10 ^ shift) n2 Hn2) as Hr.
    unfold Z.modulo in Hr.
    destruct (Z.div_eucl (n1 * 10 ^ shift) n2) as [q r].
    assert (Hq_lo : 10 ^ 28 <= q) by nia.
    assert (Hq_hi : q < 10 ^ 30) by nia.
    assert (Hsgn : forall x, 0 < x ->
              Z.sgn (Z.sgn a * Z.sgn b * x) = Z.sgn a * Z.sgn b).
    { intros x Hx. destruct a, b, x; cbn in *; try lia; congruence. }
    destruct (Z.eqb_spec r 0) as [Hr0|Hr0]; cbn [negb].
    + destruct (strip_zeros (Z.to_nat shift) q (0 - 0 - shift) (0 - 0)) as [c' e'] eqn:Hs.
      apply strip_zeros_spec in Hs as (Hc' & He1 & He2); [|lia].
      specialize (He2 ltac:(lia)).
      pose proof (coeff_len_le c' 30 ltac:(lia)) as Hlc.
      destruct (fix_total (Z.sgn a * Z.sgn b * c') e') as (d' & Hd & Hsd).
      * destruct a, b; cbn; lia.
      * ctx_consts. unfold shift in He1. lia.
      * replace (Z.abs (Z.sgn a * Z.sgn b * c')) with c'
          by (destruct a, b; cbn; lia).
        ctx_consts. lia.
      * exists d'. split; [exact Hd|]. rewrite Hsd. apply Hsgn. lia.
    + set (coeff := if q mod 5 =? 0 then q + 1 else q).
      assert (Hco : 0 < coeff <= 10 ^ 30) by (unfold coeff; destruct (q mod 5 =? 0); lia).
      assert (Hco' : coeff < 10 ^ 30).
      { unfold coeff. destruct (Z.eqb_spec (q mod 5) 0) as [H5|]; [|lia].
        destruct (Z.eq_dec (q + 1) (10 ^ 30)) as [Heq30|]; [|lia].
        exfalso. replace q with (10 ^ 30 - 1) in H5 by lia.
        vm_compute in H5. discriminate. }
      pose proof (coeff_len_le coeff 30 ltac:(lia)) as Hlc.
      destruct (fix_total (Z.sgn a * Z.sgn b * coeff) (0 - 0 - shift)) as (d' & Hd & Hsd).
      * destruct a, b; cbn; lia.
      * ctx_consts. unfold shift. lia.
      * replace (Z.abs (Z.sgn a * Z.sgn b * coeff)) with coeff
          by (destruct a, b; cbn; lia).
        ctx_consts. lia.
      * exists d'. split; [exact Hd|]. rewrite Hsd. apply Hsgn. lia.
Qed.

End DivisionFacts.

(** ** The calendar *)

Section CalendarFacts.

Lemma valid_date_inv d :
  valid_date d = true ->
  1 <= year d <= 9999 /\ 1 <= month d <= 12 /\
  1 <= day d <= days_in_month (year d) (month d).
Proof.
  unfold valid_date, MINYEAR, MAXYEAR. intros H.
  repeat (apply andb_prop in H as [H ?]).
  repeat match goal with H : (_ <=? _) = true |- _ => apply Z.leb_le in H end.
  lia.
Qed.

Lemma valid_date_intro d :
  1 <= year d <= 9999 -> 1 <= month d <= 12 ->
  1 <= day d <= days_in_month (year d) (month d) -> valid_date d = true.
Proof.
  intros Hy Hm Hd. unfold valid_date, MINYEAR, MAXYEAR.
  repeat (apply andb_true_intro; split); apply Z.leb_le; lia.
Qed.

Lemma month_cases m :
  1 <= m <= 12 ->
  m = 1 \/ m = 2 \/ m = 3 \/ m = 4 \/ m = 5 \/ m = 6 \/
  m = 7 \/ m = 8 \/ m = 9 \/ m = 10 \/ m = 11 \/ m = 12.
Proof. lia. Qed.

Ltac table_lookup :=
  repeat match goal with
    | |- context [nth ?n ?l ?d] =>
        let v := eval vm_compute in (nth n l d) in change (nth n l d) with v
    | H : context [nth ?n ?l ?d] |- _ =>
        let v := eval vm_compute in (nth n l d) in change (nth n l d) with v in H
    | |- context [Z.eqb ?a ?b] =>
        let v := eval vm_compute in (Z.eqb a b) in change (Z.eqb a b) with v
    | H : context [Z.eqb ?a ?b] |- _ =>
        let v := eval vm_compute in (Z.eqb a b) in change (Z.eqb a b) with v in H
    | |- context [Z.ltb ?a ?b] =>
        let v := eval vm_compute in (Z.ltb a b) in change (Z.ltb a b) with v
    | H : context [Z.ltb ?a ?b] |- _ =>
        let v := eval vm_compute in (Z.ltb a b) in change (Z.ltb a b) with v in H
    end;
  cbn [andb] in *.

Ltac each_month Hm :=
  apply month_cases in Hm;
  repeat (destruct Hm as [->|Hm]); [..|subst].

Lemma monthrange_snd y m : (monthrange y m).2 = days_in_month y m.
Proof.
  unfold monthrange, days_in_month. cbn [snd].
  destruct ((m =? 2) && isleap y) eqn:E; [|lia].
  apply andb_prop in E as [E _]. apply Z.eqb_eq in E. subst. reflexivity.
Qed.

Lemma days_in_month_bounds y m : 1 <= m <= 12 -> 28 <= days_in_month y m <= 31.
Proof.
  intros Hm. unfold days_in_month.
  each_month Hm; destruct (isleap y); table_lookup; lia.
Qed.

Lemma days_before_month_bounds y m :
  1 <= m <= 12 -> 0 <= days_before_month y m <= 335.
Proof.
  intros Hm. unfold days_before_month.
  each_month Hm; destruct (isleap y); table_lookup; lia.
Qed.

Lemma days_before_month_next y m :
  1 <= m <= 11 ->
  days_before_month y (m + 1) = days_before_month y m + days_in_month y m.
Proof.
  intros Hm. unfold days_before_month, days_in_month.
  assert (Hm' : 1 <= m <= 12) by lia.
  each_month Hm'; try lia; destruct (isleap y); table_lookup; lia.
Qed.

Lemma days_before_month_last y :
  days_before_month y 12 + days_in_month y 12 = if isleap y then 366 else 365.
Proof. unfold days_before_month, days_in_month. destruct (isleap y); table_lookup; lia. Qed.

Lemma isleap_spec y :
  isleap y = true <-> (y mod 4 = 0 /\ (y mod 100 <> 0 \/ y mod 400 = 0)).
Proof.
  unfold isleap. rewrite andb_true_iff, orb_true_iff, negb_true_iff.
  rewrite !Z.eqb_eq, Z.eqb_neq. reflexivity.
Qed.

Lemma days_before_year_next y :
  days_before_year (y + 1) = days_before_year y + (if isleap y then 366 else 365).
Proof.
  unfold days_before_year. replace (y + 1 - 1) with (y - 1 + 1) by lia.
  destruct (isleap y) eqn:E.
  - apply isleap_spec in E. Z.div_mod_to_equations. lia.
  - assert (H : ~ (y mod 4 = 0 /\ (y mod 100 <> 0 \/ y mod 400 = 0))).
    { rewrite <- isleap_spec. congruence. }
    Z.div_mod_to_equations. lia.
Qed.

Lemma days_before_year_mono y1 y2 :
  y1 <= y2 -> days_before_year y1 + 365 * (y2 - y1) <= days_before_year y2.
Proof.
  intros H. unfold days_before_year. Z.div_mod_to_equations. lia.
Qed.

(** A valid month and day lie inside their year. *)
Lemma day_of_year_bounds y m d :
  1 <= m <= 12 -> 1 <= d <= days_in_month y m ->
  1 <= days_before_month y m + d <= if isleap y then 366 else 365.
Proof.
  intros Hm Hd. unfold days_before_month, days_in_month in *.
  each_month Hm; destruct (isleap y); table_lookup; lia.
Qed.

Lemma toordinal_bounds d :
  valid_date d = true -> 1 <= toordinal d <= MAXORDINAL.
Proof.
  intros H. apply valid_date_inv in H as (Hy & Hm & Hd).
  pose proof (day_of_year_bounds _ _ _ Hm Hd) as Hdoy.
  unfold toordinal, ymd2ord, MAXORDINAL.
  pose proof (days_before_year_next (year d)) as Hn.
  pose proof (days_before_year_mono 1 (year d) ltac:(lia)) as H1.
  pose proof (days_before_year_mono (year d + 1) 10000 ltac:(lia)) as H2.
  change (days_before_year 1) with 0 in H1.
  change (days_before_year 10000) with 3652059 in H2.
  destruct (isleap (year d)); lia.
Qed.

Lemma month_and_day_checked leap :
  forallb (month_and_day_ok leap) (seqZ 0 (if leap then 366 else 365)) = true.
Proof. destruct leap; vm_compute; reflexivity. Qed.

Lemma month_and_day_spec y n m d :
  0 <= n < (if isleap y then 366 else 365) ->
  month_and_day (isleap y) n = (m, d) ->
  1 <= m <= 12 /\ 1 <= d <= days_in_month y m /\ days_before_month y m + d = n + 1.
Proof.
  intros Hn Hmd.
  pose proof (month_and_day_checked (isleap y)) as Hall.
  rewrite forallb_forall in Hall.
  specialize (Hall n). unfold month_and_day_ok in Hall. rewrite Hmd in Hall.
  assert (Hin : In n (seqZ 0 (if isleap y then 366 else 365))).
  { apply list_elem_of_In, elem_of_seqZ. lia. }
  specialize (Hall Hin).
  repeat (apply andb_prop in Hall as [Hall ?]).
  repeat match goal with
         | H : (_ <=? _) = true |- _ => apply Z.leb_le in H
         | H : (_ =? _) = true |- _ => apply Z.eqb_eq in H
         end.
  assert (Hdim : days_in_month y m = days_in_month (if isleap y then 4 else 1) m).
  { unfold days_in_month. destruct (isleap y); reflexivity. }
  assert (Hdbm : days_before_month y m = days_before_month (if isleap y then 4 else 1) m).
  { unfold days_before_month. destruct (isleap y); reflexivity. }
  lia.
Qed.

End CalendarFacts.

Section OrdinalRoundTrip.

Lemma isleap_false y :
  isleap y = false -> ~ (y mod 4 = 0 /\ (y mod 100 <> 0 \/ y mod 400 = 0)).
Proof. intros H. rewrite <- isleap_spec. congruence. Qed.

(** [fromordinal] returns a well-formed month and day, and [toordinal]
    brings the ordinal back. *)
Lemma ord2ymd_spec n :
  let d := ord2ymd n in
  1 <= month d <= 12 /\ 1 <= day d <= days_in_month (year d) (month d) /\
  toordinal d = n.
Proof.
  unfold ord2ymd, DI400Y, DI100Y, DI4Y.
  set (n400 := (n - 1) / 146097). set (r400 := (n - 1) mod 146097).
  set (n100 := r400 / 36524). set (r100 := r400 mod 36524).
  set (n4 := r100 / 1461). set (r4 := r100 mod 1461).
  set (n1 := r4 / 365). set (r1 := r4 mod 365).
  set (y := n400 * 400 + 1 + n100 * 100 + n4 * 4 + n1).
  assert (H400 : n - 1 = 146097 * n400 + r400 /\ 0 <= r400 < 146097).
  { unfold n400, r400. split; [apply Z.div_mod; lia|apply Z.mod_pos_bound; lia]. }
  assert (H100 : r400 = 36524 * n100 + r100 /\ 0 <= r100 < 36524).
  { unfold n100, r100. split; [apply Z.div_mod; lia|apply Z.mod_pos_bound; lia]. }
  assert (H4 : r100 = 1461 * n4 + r4 /\ 0 <= r4 < 1461).
  { unfold n4, r4. split; [apply Z.div_mod; lia|apply Z.mod_pos_bound; lia]. }
  assert (H1 : r4 = 365 * n1 + r1 /\ 0 <= r1 < 365).
  { unfold n1, r1. split; [apply Z.div_mod; lia|apply Z.mod_pos_bound; lia]. }
  assert (Hn100 : 0 <= n100 <= 4) by lia.
  assert (Hn4 : 0 <= n4 <= 24) by lia.
  assert (Hn1 : 0 <= n1 <= 4) by lia.
  clearbody n400 r400 n100 r100 n4 r4 n1 r1.
  destruct ((n1 =? 4) || (n100 =? 4)) eqn:Hend.
  - cbv zeta. cbn [year month day].
    assert (Hleap : isleap (y - 1) = true).
    { apply isleap_spec. apply orb_prop in Hend.
      unfold y. destruct Hend as [Hend|Hend]; apply Z.eqb_eq in Hend;
        Z.div_mod_to_equations; lia. }
    unfold toordinal, ymd2ord, days_before_month, days_in_month. cbn [year month day].
    rewrite Hleap. change ((12 =? 2) && true) with false. change ((2 <? 12) && true) with true.
    cbv iota. change (nth (Z.to_nat 12) mdays 0) with 31.
    change (nth (Z.to_nat 12) DAYS_BEFORE_MONTH 0) with 334.
    split; [lia|]. split; [lia|].
    unfold days_before_year, y. apply orb_prop in Hend.
    destruct Hend as [Hend|Hend]; apply Z.eqb_eq in Hend;
      Z.div_mod_to_equations; lia.
  - apply orb_false_elim in Hend as [He1 He100].
    apply Z.eqb_neq in He1, He100. cbv zeta.
    assert (Hleap : (n1 =? 3) && (negb (n4 =? 24) || (n100 =? 3)) = isleap y).
    { destruct (isleap y) eqn:E.
      - apply isleap_spec in E. unfold y in E.
        rewrite andb_true_iff, orb_true_iff, negb_true_iff, !Z.eqb_eq, Z.eqb_neq.
        Z.div_mod_to_equations. lia.
      - apply isleap_false in E. unfold y in E.
        apply not_true_is_false. intros Ht.
        rewrite andb_true_iff, orb_true_iff, negb_true_iff, !Z.eqb_eq, Z.eqb_neq in Ht.
        apply E. Z.div_mod_to_equations. lia. }
    rewrite Hleap.
    destruct (month_and_day (isleap y) r1) as [m d] eqn:Hmd.
    apply month_and_day_spec in Hmd as (Hm & Hd & Hdoy);
      [|destruct (isleap y); lia].
    cbn [year month day]. split; [assumption|]. split; [assumption|].
    unfold toordinal, ymd2ord. cbn [year month day].
    assert (Hdby : days_before_year y = n - 1 - r1).
    { unfold days_before_year, y. Z.div_mod_to_equations. lia. }
    lia.
Qed.

Lemma toordinal_fromordinal n : toordinal (fromordinal n) = n.
Proof. apply (ord2ymd_spec n). Qed.

Lemma fromordinal_valid n :
  1 <= n <= MAXORDINAL -> valid_date (fromordinal n) = true.
Proof.
  intros Hn. destruct (ord2ymd_spec n) as (Hm & Hd & Ho).
  fold (fromordinal n) in *. set (d := fromordinal n) in *.
  apply valid_date_intro; try assumption.
  pose proof (day_of_year_bounds _ _ _ Hm Hd) as Hdoy.
  unfold toordinal, ymd2ord, MAXORDINAL in *.
  pose proof (days_before_year_next (year d)) as Hnx.
  destruct (Z.le_gt_cases (year d) 0) as [Hy0|Hy0].
  - pose proof (days_before_year_mono (year d + 1) 1 ltac:(lia)) as Hmono.
    change (days_before_year 1) with 0 in Hmono.
    destruct (isleap (year d)); lia.
  - destruct (Z.le_gt_cases (year d) 9999) as [Hy1|Hy1]; [lia|].
    pose proof (days_before_year_mono 10000 (year d) ltac:(lia)) as Hmono.
    change (days_before_year 10000) with 3652059 in Hmono.
    lia.
Qed.

(** [toordinal] is strictly increasing along the lexicographic order of
    valid dates, hence injective on them. *)
Lemma toordinal_year_lt d1 d2 :
  valid_date d1 = true -> valid_date d2 = true ->
  year d1 < year d2 -> toordinal d1 < toordinal d2.
Proof.
  intros H1 H2 Hy.
  apply valid_date_inv in H1 as (_ & Hm1 & Hd1).
  apply valid_date_inv in H2 as (_ & Hm2 & Hd2).
  pose proof (day_of_year_bounds _ _ _ Hm1 Hd1).
  pose proof (day_of_year_bounds _ _ _ Hm2 Hd2).
  pose proof (days_before_year_next (year d1)).
  pose proof (days_before_year_mono (year d1 + 1) (year d2) ltac:(lia)).
  unfold toordinal, ymd2ord. destruct (isleap (year d1)), (isleap (year d2)); lia.
Qed.

Lemma days_before_month_mono y m1 m2 :
  1 <= m1 -> m1 < m2 -> m2 <= 12 ->
  days_before_month y m1 + days_in_month y m1 <= days_before_month y m2.
Proof.
  intros H1 H12 H2. unfold days_before_month, days_in_month.
  assert (Hm1 : 1 <= m1 <= 12) by lia. assert (Hm2 : 1 <= m2 <= 12) by lia.
  apply month_cases in Hm1, Hm2.
  repeat (destruct Hm1 as [->|Hm1]); try subst m1;
    repeat (destruct Hm2 as [->|Hm2]); try subst m2; try lia;
    destruct (isleap y);
    repeat match goal with
      | |- context [nth ?n ?l ?d] =>
          let v := eval vm_compute in (nth n l d) in change (nth n l d) with v
      | |- context [Z.eqb ?a ?b] =>
          let v := eval vm_compute in (Z.eqb a b) in change (Z.eqb a b) with v
      | |- context [Z.ltb ?a ?b] =>
          let v := eval vm_compute in (Z.ltb a b) in change (Z.ltb a b) with v
      end; cbn [andb]; lia.
Qed.

Lemma toordinal_month_lt d1 d2 :
  valid_date d1 = true -> valid_date d2 = true ->
  year d1 = year d2 -> month d1 < month d2 -> toordinal d1 < toordinal d2.
Proof.
  intros H1 H2 Hy Hm.
  apply valid_date_inv in H1 as (_ & Hm1 & Hd1).
  apply valid_date_inv in H2 as (_ & Hm2 & Hd2).
  pose proof (days_before_month_mono (year d1) (month d1) (month d2)
                ltac:(lia) Hm ltac:(lia)).
  unfold toordinal, ymd2ord. rewrite <- Hy. lia.
Qed.

Lemma toordinal_inj d1 d2 :
  valid_date d1 = true -> valid_date d2 = true ->
  toordinal d1 = toordinal d2 -> d1 = d2.
Proof.
  intros H1 H2 Ho.
  destruct (Z.lt_trichotomy (year d1) (year d2)) as [Hy|[Hy|Hy]].
  - pose proof (toordinal_year_lt _ _ H1 H2 Hy). lia.
  - destruct (Z.lt_trichotomy (month d1) (month d2)) as [Hm|[Hm|Hm]].
    + pose proof (toordinal_month_lt _ _ H1 H2 Hy Hm). lia.
    + destruct d1 as [y1 m1 dd1], d2 as [y2 m2 dd2]. cbn in *. subst.
      unfold toordinal, ymd2ord in Ho. cbn in Ho. f_equal. lia.
    + pose proof (toordinal_month_lt _ _ H2 H1 (eq_sym Hy) Hm). lia.
  - pose proof (toordinal_year_lt _ _ H2 H1 Hy). lia.
Qed.

Lemma fromordinal_toordinal d :
  valid_date d = true -> fromordinal (toordinal d) = d.
Proof.
  intros H. apply toordinal_inj; [|assumption|apply toordinal_fromordinal].
  apply fromordinal_valid, toordinal_bounds, H.
Qed.

End OrdinalRoundTrip.

(** ** Rolling dates *)

Section Rolling.

Lemma roll_dates_chain n freq : forall d l,
  roll_dates n freq d = Ok l ->
  forall i a b, (d :: l) !! i = Some a -> (d :: l) !! S i = Some b ->
                roll freq a = Ok b.
Proof.
  induction n as [|n IH]; intros d l H i a b Ha Hb; cbn in H.
  - injection H as <-. destruct i; discriminate.
  - inv_bind H as d' Hd. inv_bind H as rest Hr. injection H as <-.
    destruct i as [|i].
    + cbn in Ha, Hb. injection Ha as <-. injection Hb as <-. exact Hd.
    + eapply IH; [exact Hr| |]; [exact Ha|exact Hb].
Qed.

Lemma add_days_spec d n d' :
  add_days d n = Ok d' ->
  valid_date d' = true /\ toordinal d' = toordinal d + n.
Proof.
  unfold add_days.
  destruct (Z.ltb_spec 0 (toordinal d + n)); [|discriminate].
  destruct (Z.leb_spec (toordinal d + n) MAXORDINAL); [|discriminate].
  cbn. intros [= <-]. split.
  - apply fromordinal_valid. lia.
  - apply toordinal_fromordinal.
Qed.

Lemma add_days_ok d n :
  1 <= toordinal d + n <= MAXORDINAL ->
  add_days d n = Ok (fromordinal (toordinal d + n)).
Proof.
  intros H. unfold add_days.
  destruct (Z.ltb_spec 0 (toordinal d + n)); [|lia].
  destruct (Z.leb_spec (toordinal d + n) MAXORDINAL); [|lia].
  reflexivity.
Qed.

Lemma make_date_valid d :
  valid_date d = true -> make_date (year d) (month d) (day d) = Ok d.
Proof. intros H. unfold make_date. destruct d. cbn in *. rewrite H. reflexivity. Qed.

(** Adding weeks is adding days: nothing looks at the month. *)
Lemma add_relativedelta_weeks d w :
  valid_date d = true -> add_relativedelta d (rd_weeks w) = add_days d (7 * w).
Proof.
  intros H. unfold add_relativedelta, rd_weeks. cbn [rd_years rd_months rd_days].
  change (0 =? 0) with true. cbv iota.
  pose proof (valid_date_inv _ H) as (_ & _ & Hd).
  rewrite monthrange_snd, Z.add_0_r. rewrite Z.min_r by lia.
  rewrite make_date_valid by assumption. reflexivity.
Qed.

Lemma roll_weekly d d' :
  valid_date d = true -> roll "W" d = Ok d' ->
  valid_date d' = true /\ toordinal d' = toordinal d + 7.
Proof.
  intros Hv H. unfold roll in H.
  destruct (decide ("W" = "W")) as [_|]; [|congruence].
  rewrite add_relativedelta_weeks in H by assumption.
  apply add_days_spec in H. exact H.
Qed.

Lemma roll_dates_weekly n : forall d,
  valid_date d = true -> toordinal d + 7 * Z.of_nat n <= MAXORDINAL ->
  exists l, roll_dates n "W" d = Ok l /\ Forall (fun x => valid_date x = true) l.
Proof.
  induction n as [|n IH]; intros d Hv Hn.
  - exists []. split; [reflexivity|constructor].
  - pose proof (toordinal_bounds _ Hv) as Hb.
    assert (Hroll : roll "W" d = Ok (fromordinal (toordinal d + 7))).
    { unfold roll. destruct (decide ("W" = "W")) as [_|]; [|congruence].
      rewrite add_relativedelta_weeks by assumption. apply add_days_ok. lia. }
    destruct (roll_weekly _ _ Hv Hroll) as (Hv' & Ho').
    destruct (IH _ Hv' ltac:(lia)) as (l & Hl & Hall).
    exists (fromordinal (toordinal d + 7) :: l). split.
    + cbn [roll_dates]. rewrite Hroll. cbn. rewrite Hl. reflexivity.
    + constructor; assumption.
Qed.

Lemma is_month_end_make y m :
  is_month_end (mkdate y m (monthrange y m).2) = true.
Proof. unfold is_month_end. cbn. apply Z.eqb_refl. Qed.

(** [_adjust_end_of_month] keeps a month end a month end. *)
Lemma adjust_end_of_month_preserves d k d' :
  is_month_end d = true -> _adjust_end_of_month d k = Ok d' ->
  is_month_end d' = true.
Proof.
  unfold _adjust_end_of_month. intros He H.
  inv_bind H as nd Hnd. unfold is_month_end in He. rewrite He in H.
  unfold make_date in H.
  destruct (valid_date _); [|discriminate]. injection H as <-.
  apply is_month_end_make.
Qed.

Lemma roll_month_based freq d :
  freq ∈ ["M"; "Q"; "S"; "A"] ->
  exists k, k ∈ [1; 3; 6; 12] /\ roll freq d = _adjust_end_of_month d k.
Proof.
  intros H. unfold roll.
  repeat (apply elem_of_cons in H as [->|H]);
    [exists 1|exists 3|exists 6|exists 12|apply elem_of_nil in H; contradiction];
    (split; [set_solver|]);
    repeat match goal with
      | |- context [decide (?a = ?b)] =>
          destruct (decide (a = b)) as [Heq|Hne];
          [try discriminate Heq | try congruence]
      end;
    reflexivity.
Qed.

End Rolling.

(** A constructor call on concrete arguments is checked attribute by
    attribute: the rate, the two table lookups and the installment. *)
Ltac constructed r ppy f e :=
  match goal with
  | |- init ?p ?a ?s ?y ?c ?fr = Ok _ =>
      refine (init_intro p a s y c fr r ppy f e _ _ _ _);
      [vm_compute; reflexivity | reflexivity | reflexivity | vm_compute; reflexivity]
  end.

(** ** Rolling by months *)

Section MonthRolls.

Lemma add_days_0 d : valid_date d = true -> add_days d 0 = Ok d.
Proof.
  intros H. pose proof (toordinal_bounds _ H).
  rewrite add_days_ok by lia. rewrite Z.add_0_r, fromordinal_toordinal by assumption.
  reflexivity.
Qed.

Lemma make_date_out_of_range y m d :
  9999 < y -> make_date y m d = Raise DateOutOfRange.
Proof.
  intros Hy. unfold make_date, valid_date, MAXYEAR. cbn [year month day].
  destruct (Z.leb_spec y 9999); [lia|].
  rewrite andb_false_r. reflexivity.
Qed.

Lemma make_date_ok y m d :
  1 <= y <= 9999 -> 1 <= m <= 12 -> 1 <= d <= days_in_month y m ->
  make_date y m d = Ok (mkdate y m d) /\ valid_date (mkdate y m d) = true.
Proof.
  intros Hy Hm Hd.
  assert (Hv : valid_date (mkdate y m d) = true) by (apply valid_date_intro; assumption).
  unfold make_date. rewrite Hv. auto.
Qed.

Lemma month_shift_cases d k :
  1 <= month d <= 12 -> 1 <= k <= 12 ->
  month_shift d k
  = if 12 <? month d + k then (year d + 1, month d + k - 12)
    else (year d, month d + k).
Proof.
  intros Hm Hk. unfold month_shift.
  destruct (Z.ltb_spec 12 (month d + k)).
  - f_equal; [f_equal|]; Z.div_mod_to_equations; lia.
  - f_equal; [|Z.div_mod_to_equations; lia].
    replace ((month d + k - 1) / 12) with 0 by (Z.div_mod_to_equations; lia). lia.
Qed.

(** [d + relativedelta(months=k)]: the month moves by [k], the day is kept
    or clamped to the length of the target month, and a year after 9999
    raises. *)
Lemma add_months_spec d k :
  valid_date d = true -> k ∈ [1; 3; 6; 12] ->
  add_relativedelta d (rd_of_months k)
  = let '(y, m) := month_shift d k in
    if y <=? 9999 then Ok (mkdate y m (Z.min (days_in_month y m) (day d)))
    else Raise DateOutOfRange.
Proof.
  intros Hv Hk. pose proof (valid_date_inv _ Hv) as (Hy & Hm & Hd).
  assert (Hk' : 1 <= k <= 12).
  { repeat (apply elem_of_cons in Hk as [->|Hk]); try lia.
    apply elem_of_nil in Hk. contradiction. }
  rewrite (month_shift_cases d k Hm Hk').
  assert (Hgen : forall y m,
            1 <= y -> 1 <= m <= 12 ->
            (r ← make_date y m (Z.min (monthrange y m).2 (day d)); add_days r 0)
            = if y <=? 9999 then Ok (mkdate y m (Z.min (days_in_month y m) (day d)))
              else Raise DateOutOfRange).
  { intros y m Hy1 Hm1. rewrite monthrange_snd.
    pose proof (days_in_month_bounds y m Hm1) as Hdim.
    destruct (Z.leb_spec y 9999) as [Hle|Hgt].
    - destruct (make_date_ok y m (Z.min (days_in_month y m) (day d))) as [Hmk Hvalid];
        try lia.
      rewrite Hmk. cbn [mbind result_bind]. apply add_days_0. exact Hvalid.
    - rewrite make_date_out_of_range by lia. reflexivity. }
  unfold add_relativedelta.
  repeat (apply elem_of_cons in Hk as [->|Hk]);
    [| | | |apply elem_of_nil in Hk; contradiction].
  - change (rd_of_months 1) with (mkrd 0 1 0). cbn [rd_years rd_months rd_days].
    change (1 =? 0) with false. cbv iota. rewrite Z.add_0_r.
    destruct (Z.ltb_spec 12 (month d + 1)).
    + apply Hgen; lia.
    + destruct (Z.ltb_spec (month d + 1) 1); [lia|]. apply Hgen; lia.
  - change (rd_of_months 3) with (mkrd 0 3 0). cbn [rd_years rd_months rd_days].
    change (3 =? 0) with false. cbv iota. rewrite Z.add_0_r.
    destruct (Z.ltb_spec 12 (month d + 3)).
    + apply Hgen; lia.
    + destruct (Z.ltb_spec (month d + 3) 1); [lia|]. apply Hgen; lia.
  - change (rd_of_months 6) with (mkrd 0 6 0). cbn [rd_years rd_months rd_days].
    change (6 =? 0) with false. cbv iota. rewrite Z.add_0_r.
    destruct (Z.ltb_spec 12 (month d + 6)).
    + apply Hgen; lia.
    + destruct (Z.ltb_spec (month d + 6) 1); [lia|]. apply Hgen; lia.
  - change (rd_of_months 12) with (mkrd 1 0 0). cbn [rd_years rd_months rd_days].
    change (0 =? 0) with true. cbv iota.
    destruct (Z.ltb_spec 12 (month d + 12)); [|lia].
    replace (month d + 12 - 12) with (month d) by lia.
    apply Hgen; lia.
Qed.

End MonthRolls.

(** [_adjust_end_of_month(date, k)] for the steps the generator uses: the
    month moves by [k] calendar months; from the last day of a month the
    result is the last day of the target month, otherwise the day is kept,
    clamped to the length of the target month; a year after 9999 raises. *)
Lemma adjust_end_of_month_eq d k :
  valid_date d = true -> k ∈ [1; 3; 6; 12] ->
  _adjust_end_of_month d k
  = let '(y, m) := month_shift d k in
    if y <=? 9999 then
      Ok (mkdate y m (if is_month_end d then days_in_month y m
                      else Z.min (days_in_month y m) (day d)))
    else Raise DateOutOfRange.
Proof.
  intros Hv Hk. unfold _adjust_end_of_month. rewrite (add_months_spec d k Hv Hk).
  pose proof (valid_date_inv _ Hv) as (Hy & Hm & Hd).
  assert (Hk' : 1 <= k <= 12).
  { repeat (apply elem_of_cons in Hk as [->|Hk]); try lia.
    apply elem_of_nil in Hk. contradiction. }
  pose proof (month_shift_cases d k Hm Hk') as Hcases.
  destruct (month_shift d k) as [y m].
  assert (Hym : 1 <= y /\ 1 <= m <= 12).
  { destruct (Z.ltb_spec 12 (month d + k)); injection Hcases as -> ->; lia. }
  destruct (Z.leb_spec y 9999) as [Hle|Hgt]; [|reflexivity].
  cbn [mbind result_bind year month day]. fold (is_month_end d).
  destruct (is_month_end d); [|reflexivity].
  rewrite monthrange_snd.
  pose proof (days_in_month_bounds y m ltac:(lia)).
  apply make_date_ok; lia.
Qed.


(** ** End-of-month preservation *)

Lemma Forall_chain {A} (Q : A -> Prop) (l : list A) :
  (forall i a b, l !! i = Some a -> l !! S i = Some b -> Q a -> Q b) ->
  (forall a, l !! 0%nat = Some a -> Q a) ->
  Forall Q l.
Proof.
  induction l as [|x l IH]; intros Hstep Hhead; constructor.
  - apply Hhead. reflexivity.
  - apply IH.
    + intros i a b Ha Hb. apply (Hstep (S i)); assumption.
    + intros a Ha. apply (Hstep 0%nat x a); [reflexivity|exact Ha|].
      apply Hhead. reflexivity.
Qed.

Lemma month_step_bounds k : k ∈ [1; 3; 6; 12] -> 1 <= k <= 12.
Proof.
  intros Hk. repeat (apply elem_of_cons in Hk as [->|Hk]); try lia.
  apply elem_of_nil in Hk. contradiction.
Qed.

Lemma roll_month_step freq d :
  freq ∈ ["M"; "Q"; "S"; "A"] ->
  exists k, (freq, k) ∈ [("M", 1); ("Q", 3); ("S", 6); ("A", 12)] /\
            k ∈ [1; 3; 6; 12] /\ roll freq d = _adjust_end_of_month d k.
Proof.
  intros H. unfold roll.
  repeat (apply elem_of_cons in H as [->|H]);
    [exists 1|exists 3|exists 6|exists 12|apply elem_of_nil in H; contradiction];
    (split; [rewrite !elem_of_cons; tauto|]);
    (split; [rewrite !elem_of_cons; tauto|]);
    repeat match goal with
      | |- context [decide (?a = ?b)] =>
          destruct (decide (a = b)) as [Heq|Hne];
          [try discriminate Heq | try congruence]
      end;
    reflexivity.
Qed.

Lemma month_step_unique freq k k' :
  (freq, k) ∈ [("M", 1); ("Q", 3); ("S", 6); ("A", 12)] ->
  (freq, k') ∈ [("M", 1); ("Q", 3); ("S", 6); ("A", 12)] -> k' = k.
Proof.
  rewrite !elem_of_cons, !elem_of_nil. intros Hk Hk'.
  destruct Hk as [Hk|[Hk|[Hk|[Hk|[]]]]]; injection Hk as -> ->;
    destruct Hk' as [Hk'|[Hk'|[Hk'|[Hk'|[]]]]]; congruence.
Qed.

(** One month-based roll from a valid date: the result is a valid date in
    the month [k] calendar months later; its day is the last of that month
    when [d] is a month end, and the day of [d], clamped to the length of
    that month, otherwise. *)
Lemma roll_month_target freq d d' :
  freq ∈ ["M"; "Q"; "S"; "A"] ->
  valid_date d = true -> roll freq d = Ok d' ->
  exists k, (freq, k) ∈ [("M", 1); ("Q", 3); ("S", 6); ("A", 12)] /\
    valid_date d' = true /\
    year d' * 12 + month d' = year d * 12 + month d + k /\
    day d' = (if is_month_end d then days_in_month (year d') (month d')
              else Z.min (days_in_month (year d') (month d')) (day d)).
Proof.
  intros Hf Hv H.
  destruct (roll_month_step freq d Hf) as (k & Hfk & Hk & Hroll).
  exists k. split; [exact Hfk|].
  rewrite Hroll, (adjust_end_of_month_eq d k Hv Hk) in H.
  pose proof (valid_date_inv _ Hv) as (Hy & Hm & Hd).
  pose proof (month_step_bounds k Hk) as Hk'.
  pose proof (month_shift_cases d k Hm Hk') as Hcases.
  destruct (month_shift d k) as [y m].
  destruct (Z.leb_spec y 9999) as [Hle|]; [|discriminate].
  injection H as <-. cbn [year month day].
  pose proof (days_in_month_bounds y m) as Hdim.
  destruct (Z.ltb_spec 12 (month d + k)); injection Hcases as -> ->;
    specialize (Hdim ltac:(lia));
    (split; [apply valid_date_intro; cbn [year month day]; try lia;
             destruct (is_month_end d); lia|]);
    (split; [lia|reflexivity]).
Qed.

Lemma is_month_end_spec d :
  is_month_end d = true <-> day d = days_in_month (year d) (month d).
Proof. unfold is_month_end. rewrite monthrange_snd. apply Z.eqb_eq. Qed.

Lemma roll_dates_valid n freq : forall d l,
  freq ∈ ["M"; "Q"; "S"; "A"] ->
  valid_date d = true -> roll_dates n freq d = Ok l ->
  Forall (fun x => valid_date x = true) (d :: l).
Proof.
  induction n as [|n IH]; intros d l Hf Hv H; cbn in H.
  - injection H as <-. repeat constructor. exact Hv.
  - inv_bind H as d' Hd. inv_bind H as rest Hr. injection H as <-.
    constructor; [exact Hv|].
    destruct (roll_month_target _ _ _ Hf Hv Hd) as (k & _ & Hv' & _).
    exact (IH d' rest Hf Hv' Hr).
Qed.

(** C4. With a month-based frequency, whenever a date of the generated
    sequence is the last day of its month, so is the date rolled from it; a
    sequence that starts on a month end therefore stays on month ends,
    whatever the lengths of the months.  From a valid start date the rolled
    date is pinned: it lies in the month 1, 3, 6 or 12 calendar months after
    the month of the preceding date, and when the preceding date is a month
    end its day is the number of days of that target month, a February
    included. *)
Theorem month_end_is_preserved self dates :
  frequency self ∈ ["M"; "Q"; "S"; "A"] ->
  _generate_payment_dates self = Ok dates ->
  (forall i a b, dates !! i = Some a -> dates !! S i = Some b ->
                 is_month_end a = true -> is_month_end b = true) /\
  (is_month_end (start_date self) = true ->
   Forall (fun d => is_month_end d = true) dates) /\
  (valid_date (start_date self) = true ->
   exists k, (frequency self, k) ∈ [("M", 1); ("Q", 3); ("S", 6); ("A", 12)] /\
     forall i a b, dates !! i = Some a -> dates !! S i = Some b ->
       1 <= month b <= 12 /\
       year b * 12 + month b = year a * 12 + month a + k /\
       (is_month_end a = true -> day b = days_in_month (year b) (month b))).
Proof.
  intros Hf H. apply generate_payment_dates_inv in H as (new & -> & Hn & _).
  assert (Hstep : forall i a b,
             (start_date self :: new) !! i = Some a ->
             (start_date self :: new) !! S i = Some b ->
             is_month_end a = true -> is_month_end b = true).
  { intros i a b Ha Hb He.
    pose proof (roll_dates_chain _ _ _ _ Hn i a b Ha Hb) as Hr.
    destruct (roll_month_based _ a Hf) as (k & _ & Hk). rewrite Hk in Hr.
    eapply adjust_end_of_month_preserves; eassumption. }
  split; [exact Hstep|]. split.
  - intros Hs. apply Forall_chain; [exact Hstep|].
    intros a [= <-]. exact Hs.
  - intros Hv.
    destruct (roll_month_step (frequency self) (start_date self) Hf) as (k & Hk & _ & _).
    exists k. split; [exact Hk|].
    pose proof (roll_dates_valid _ _ _ _ Hf Hv Hn) as Hall.
    rewrite Forall_lookup in Hall.
    intros i a b Ha Hb.
    pose proof (roll_dates_chain _ _ _ _ Hn i a b Ha Hb) as Hr.
    destruct (roll_month_target _ _ _ Hf (Hall _ _ Ha) Hr)
      as (k' & Hk' & Hvb & Hym & Hday).
    rewrite (month_step_unique _ _ _ Hk Hk') in Hym.
    pose proof (valid_date_inv _ Hvb) as (_ & Hmb & _).
    split; [exact Hmb|]. split; [exact Hym|].
    intros He. rewrite He in Hday. exact Hday.
Qed.

Lemma month_end_is_preserved_witness :
  frequency monthly_loan ∈ ["M"; "Q"; "S"; "A"] /\
  _generate_payment_dates monthly_loan = Ok (dates_of monthly_loan) /\
  is_month_end (start_date monthly_loan) = true /\
  valid_date (start_date monthly_loan) = true /\
  dates_of monthly_loan !! 0%nat = Some (mkdate 2024 1 31) /\
  dates_of monthly_loan !! 1%nat = Some (mkdate 2024 2 29) /\
  dates_of monthly_loan !! 2%nat = Some (mkdate 2024 3 31) /\
  dates_of monthly_loan !! 13%nat = Some (mkdate 2025 2 28) /\
  Forall (fun d => is_month_end d = true) (dates_of monthly_loan) /\
  exists k, (frequency monthly_loan, k) ∈ [("M", 1); ("Q", 3); ("S", 6); ("A", 12)] /\
    forall i a b, dates_of monthly_loan !! i = Some a ->
                  dates_of monthly_loan !! S i = Some b ->
      1 <= month b <= 12 /\
      year b * 12 + month b = year a * 12 + month a + k /\
      (is_month_end a = true -> day b = days_in_month (year b) (month b)).
Proof.
  assert (Hf : frequency monthly_loan ∈ ["M"; "Q"; "S"; "A"])
    by (apply list_elem_of_here).
  assert (Hd : _generate_payment_dates monthly_loan = Ok (dates_of monthly_loan))
    by (vm_compute; reflexivity).
  assert (He : is_month_end (start_date monthly_loan) = true)
    by (vm_compute; reflexivity).
  assert (Hv : valid_date (start_date monthly_loan) = true)
    by (vm_compute; reflexivity).
  split; [exact Hf|]. split; [exact Hd|]. split; [exact He|]. split; [exact Hv|].
  split; [vm_compute; reflexivity|]. split; [vm_compute; reflexivity|].
  split; [vm_compute; reflexivity|]. split; [vm_compute; reflexivity|].
  split.
  - exact (proj1 (proj2 (month_end_is_preserved monthly_loan _ Hf Hd)) He).
  - exact (proj2 (proj2 (month_end_is_preserved monthly_loan _ Hf Hd)) Hv).
Defined.

(** ** Weekly schedules *)

Lemma roll_dates_weekly_spec n : forall d l,
  valid_date d = true -> roll_dates n "W" d = Ok l ->
  forall i a b, (d :: l) !! i = Some a -> (d :: l) !! S i = Some b ->
                valid_date a = true /\ toordinal b = toordinal a + 7.
Proof.
  induction n as [|n IH]; intros d l Hv H i a b Ha Hb; cbn in H.
  - injection H as <-. destruct i; discriminate.
  - inv_bind H as d' Hd. inv_bind H as rest Hr. injection H as <-.
    destruct (roll_weekly _ _ Hv Hd) as (Hv' & Ho).
    destruct i as [|i].
    + cbn in Ha, Hb. injection Ha as <-. injection Hb as <-. auto.
    + eapply (IH d' rest Hv' Hr i); [exact Ha|exact Hb].
Qed.


(** C8. A weekly loan has [years * 52] periods; its date sequence is the
    start date followed by exactly that many dates, each 7 calendar days
    after its predecessor, also when the start date is a month end. *)
Theorem weekly_dates_seven_days_apart principal annual_rate start yrs conv self :
  init principal annual_rate start yrs conv "W" = Ok self ->
  valid_date start = true -> 0 <= yrs ->
  terms self = yrs * 52 /\
  exists dates,
    _generate_payment_dates self = Ok dates /\
    Z.of_nat (length dates) = terms self + 1 /\
    dates !! 0%nat = Some start /\
    forall i a b, dates !! i = Some a -> dates !! S i = Some b ->
                  toordinal b = toordinal a + 7.
Proof.
  intros Hi Hv Hy.
  apply init_inv in Hi as (r & ppy & f & e & _ & Hp & _ & He & ->).
  change (periods_table !! "W") with (Some 52) in Hp. injection Hp as <-.
  cbn [terms]. split; [reflexivity|].
  unfold calculate_emi in He. inv_bind He as dates Hd.
  exists dates. split; [exact Hd|].
  apply generate_payment_dates_inv in Hd as (new & -> & Hn & Hl).
  cbn [terms frequency start_date] in *.
  split; [cbn [length]; lia|]. split; [reflexivity|].
  intros i a b Ha Hb.
  eapply roll_dates_weekly_spec; [exact Hv|exact Hn|exact Ha|exact Hb].
Qed.

Lemma weekly_dates_seven_days_apart_witness :
  is_month_end (mkdate 2024 1 31) = true /\
  terms weekly_loan = 52 /\
  exists dates,
    _generate_payment_dates weekly_loan = Ok dates /\
    Z.of_nat (length dates) = terms weekly_loan + 1 /\
    dates !! 0%nat = Some (mkdate 2024 1 31) /\
    forall i a b, dates !! i = Some a -> dates !! S i = Some b ->
                  toordinal b = toordinal a + 7.
Proof.
  split; [vm_compute; reflexivity|].
  apply (weekly_dates_seven_days_apart
           (dec 100000 2) (dec 12 0) (mkdate 2024 1 31) 1 "Actual/365" weekly_loan).
  - constructed (dec 12 2) 52 DayCountConvention.year_fraction_actual_365 (dec 2043 2).
  - vm_compute. reflexivity.
  - lia.
Defined.

(** ** Year fractions *)

Section YearFractions.

Import Decimal DayCountConvention.

Lemma date_ltb_toordinal a b :
  valid_date a = true -> valid_date b = true ->
  date_ltb a b = true -> toordinal a < toordinal b.
Proof.
  intros Ha Hb H. unfold date_ltb in H.
  apply orb_prop in H as [H|H].
  - apply Z.ltb_lt in H. apply toordinal_year_lt; assumption.
  - apply andb_prop in H as [Hy H]. apply Z.eqb_eq in Hy.
    apply orb_prop in H as [H|H].
    + apply Z.ltb_lt in H. apply toordinal_month_lt; assumption.
    + apply andb_prop in H as [Hm H]. apply Z.eqb_eq in Hm. apply Z.ltb_lt in H.
      unfold toordinal, ymd2ord. rewrite Hy, Hm. lia.
Qed.

Lemma days_30_360_bound s e :
  valid_date s = true -> valid_date e = true -> Z.abs (days_30_360 s e) < 10 ^ 7.
Proof.
  intros Hs He.
  apply valid_date_inv in Hs as (Hys & Hms & Hds).
  apply valid_date_inv in He as (Hye & Hme & Hde).
  unfold days_30_360. change (10 ^ 7) with 10000000. lia.
Qed.

Lemma days_between_bound s e :
  valid_date s = true -> valid_date e = true -> Z.abs (days_between e s) < 10 ^ 7.
Proof.
  intros Hs He. apply toordinal_bounds in Hs, He.
  unfold days_between, MAXORDINAL in *. change (10 ^ 7) with 10000000. lia.
Qed.

(** Dividing a day count of dates by a year length of 360, 365 or 366. *)
Lemma div_days days len :
  Z.abs days < 10 ^ 7 -> 0 < len < 1000 ->
  exists q, div (of_Z days) (of_Z len) = Ok q /\ Z.sgn (coef q) = Z.sgn days.
Proof.
  intros Hd Hl.
  destruct (div_int_total days len) as (q & Hq & Hs).
  - lia.
  - change (10 ^ 7) with 10000000 in Hd. change (10 ^ 28) with 10000000000000000000000000000. lia.
  - change (10 ^ 28) with 10000000000000000000000000000. lia.
  - exists q. split; [exact Hq|]. rewrite Hs. destruct len; cbn; lia.
Qed.

Lemma year_fraction_30_360_total s e :
  valid_date s = true -> valid_date e = true ->
  exists q, year_fraction_30_360 s e = Ok (q, days_30_360 s e) /\
            div (of_Z (days_30_360 s e)) (of_Z 360) = Ok q /\
            Z.sgn (coef q) = Z.sgn (days_30_360 s e).
Proof.
  intros Hs He.
  destruct (div_days (days_30_360 s e) 360 (days_30_360_bound _ _ Hs He) ltac:(lia))
    as (q & Hq & Hsgn).
  exists q. unfold year_fraction_30_360. fold (days_30_360 s e).
  rewrite Hq. auto.
Qed.

Lemma year_fraction_actual_total len s e :
  valid_date s = true -> valid_date e = true -> 0 < len < 1000 ->
  exists q, div (of_Z (days_between e s)) (of_Z len) = Ok q /\
            Z.sgn (coef q) = Z.sgn (days_between e s).
Proof. intros Hs He Hl. apply div_days; [apply days_between_bound; assumption|lia]. Qed.

End YearFractions.



(** C10, as the code has it. Between valid dates none of the four
    year-fraction functions raises: each returns the quotient and the raw
    day count, and the quotient has the sign of the day count.  When the end
    date precedes the start date the actual day count is negative, while the
    Thirty360 count is negative or zero. *)
Theorem year_fractions_never_raise s e :
  valid_date s = true -> valid_date e = true ->
  (exists q, DayCountConvention.year_fraction_30_360 s e = Ok (q, days_30_360 s e) /\
             Z.sgn (Decimal.coef q) = Z.sgn (days_30_360 s e)) /\
  (exists q, DayCountConvention.year_fraction_actual_360 s e
             = Ok (q, days_between e s) /\
             Z.sgn (Decimal.coef q) = Z.sgn (days_between e s)) /\
  (exists q, DayCountConvention.year_fraction_actual_365 s e
             = Ok (q, days_between e s) /\
             Z.sgn (Decimal.coef q) = Z.sgn (days_between e s)) /\
  (exists q, DayCountConvention.year_fraction_actual_actual s e
             = Ok (q, days_between e s) /\
             Z.sgn (Decimal.coef q) = Z.sgn (days_between e s)) /\
  (date_ltb e s = true -> days_between e s < 0 /\ days_30_360 s e <= 0).
Proof.
  intros Hs He. split; [|split; [|split; [|split]]].
  - destruct (year_fraction_30_360_total s e Hs He) as (q & Hq & _ & Hsgn). eauto.
  - destruct (year_fraction_actual_total 360 s e Hs He ltac:(lia)) as (q & Hq & Hsgn).
    exists q. unfold DayCountConvention.year_fraction_actual_360. rewrite Hq. auto.
  - destruct (year_fraction_actual_total 365 s e Hs He ltac:(lia)) as (q & Hq & Hsgn).
    exists q. unfold DayCountConvention.year_fraction_actual_365. rewrite Hq. auto.
  - unfold DayCountConvention.year_fraction_actual_actual.
    destruct (isleap (year s)).
    + destruct (year_fraction_actual_total 366 s e Hs He ltac:(lia)) as (q & Hq & Hsgn).
      exists q. cbv zeta. rewrite Hq. auto.
    + destruct (year_fraction_actual_total 365 s e Hs He ltac:(lia)) as (q & Hq & Hsgn).
      exists q. cbv zeta. rewrite Hq. auto.
  - intros Hlt. split.
    + pose proof (date_ltb_toordinal _ _ He Hs Hlt). unfold days_between. lia.
    + apply valid_date_inv in Hs as (Hys & Hms & Hds).
      apply valid_date_inv in He as (Hye & Hme & Hde).
      unfold date_ltb in Hlt. unfold days_30_360.
      apply orb_prop in Hlt as [H|H].
      * apply Z.ltb_lt in H. lia.
      * apply andb_prop in H as [Hy H]. apply Z.eqb_eq in Hy.
        apply orb_prop in H as [H|H].
        -- apply Z.ltb_lt in H. lia.
        -- apply andb_prop in H as [Hm H]. apply Z.eqb_eq in Hm. apply Z.ltb_lt in H. lia.
Qed.

Lemma year_fractions_never_raise_witness :
  valid_date (mkdate 2024 3 15) = true /\ valid_date (mkdate 2024 2 15) = true /\
  date_ltb (mkdate 2024 2 15) (mkdate 2024 3 15) = true /\
  days_between (mkdate 2024 2 15) (mkdate 2024 3 15) < 0 /\
  days_30_360 (mkdate 2024 3 15) (mkdate 2024 2 15) <= 0.
Proof.
  assert (Hs : valid_date (mkdate 2024 3 15) = true) by (vm_compute; reflexivity).
  assert (He : valid_date (mkdate 2024 2 15) = true) by (vm_compute; reflexivity).
  assert (Hlt : date_ltb (mkdate 2024 2 15) (mkdate 2024 3 15) = true)
    by (vm_compute; reflexivity).
  split; [exact Hs|]. split; [exact He|]. split; [exact Hlt|].
  exact (proj2 (proj2 (proj2 (proj2
           (year_fractions_never_raise (mkdate 2024 3 15) (mkdate 2024 2 15) Hs He))))
         Hlt).
Defined.

(** The Thirty360 count from the 31st back to the 30th of a month is zero,
    not negative, although the end date precedes the start date. *)
Lemma thirty360_backwards_can_be_zero :
  date_ltb (mkdate 2024 1 30) (mkdate 2024 1 31) = true /\
  exists q days,
    DayCountConvention.year_fraction_30_360 (mkdate 2024 1 31) (mkdate 2024 1 30)
    = Ok (q, days) /\
    ~ days < 0 /\ ~ Decimal.coef q < 0.
Proof.
  split; [vm_compute; reflexivity|].
  exists (Decimal.mk 0 0), 0. split; [vm_compute; reflexivity|]. cbn. lia.
Qed.

(** ** The constructor and its inputs *)

Section ConstructorErrors.

Import Decimal.

Lemma roll_dates_0 freq d : roll_dates 0 freq d = Ok [].
Proof. reflexivity. Qed.

(** Without periods [F] stays 0 and the division [P / F] raises. *)
Lemma calculate_emi_no_terms self :
  terms self <= 0 ->
  calculate_emi self
  = Raise (if coef (P self) =? 0 then InvalidOperation else DivisionByZero).
Proof.
  intros Ht. unfold calculate_emi, _generate_payment_dates.
  replace (Z.to_nat (terms self)) with 0%nat by lia.
  cbn [dates_loop]. cbn. unfold div. cbn [coef of_Z].
  change (0 =? 0) with true. cbv iota. destruct (coef (P self) =? 0); reflexivity.
Qed.

End ConstructorErrors.

(** C7, as the code has it, for a principal and a rate that are finite
    decimals. The constructor validates nothing by itself: a term of zero
    or fewer years leaves no period, so the solver divides by [F = 0] and
    the constructor raises (DivisionByZero, or InvalidOperation for a zero
    principal, when the rate and both codes are accepted); no object,
    installment or schedule is returned.  [principal] and [annual_rate]
    range over [Decimal.t], the finite decimals: a quiet NaN principal is
    outside the statement, since Python divides a NaN by zero and quantizes
    it without raising. *)
Theorem nonpositive_term_is_rejected principal annual_rate start yrs conv freq :
  yrs <= 0 ->
  is_ok (init principal annual_rate start yrs conv freq) = false /\
  (forall r ppy f,
     Decimal.div annual_rate (Decimal.of_Z 100) = Ok r ->
     periods_table !! freq = Some ppy -> dcc_table !! conv = Some f ->
     init principal annual_rate start yrs conv freq
     = Raise (if Decimal.coef principal =? 0 then InvalidOperation
              else DivisionByZero)).
Proof.
  intros Hy.
  assert (Hspec : forall r ppy f,
     Decimal.div annual_rate (Decimal.of_Z 100) = Ok r ->
     periods_table !! freq = Some ppy -> dcc_table !! conv = Some f ->
     init principal annual_rate start yrs conv freq
     = Raise (if Decimal.coef principal =? 0 then InvalidOperation
              else DivisionByZero)).
  { intros r ppy f Hr Hp Hf. unfold init. rewrite Hr, Hp, Hf. cbn.
    rewrite calculate_emi_no_terms.
    - reflexivity.
    - cbn [terms]. apply periods_table_pos in Hp. nia. }
  split; [|exact Hspec].
  destruct (Decimal.div annual_rate (Decimal.of_Z 100)) as [r|ex] eqn:Hr.
  - destruct (periods_table !! freq) as [ppy|] eqn:Hp.
    + destruct (dcc_table !! conv) as [f|] eqn:Hf.
      * rewrite (Hspec r ppy f eq_refl eq_refl eq_refl). reflexivity.
      * unfold init. rewrite Hr, Hp, Hf. reflexivity.
    + unfold init. rewrite Hr, Hp. reflexivity.
  - unfold init. rewrite Hr. reflexivity.
Qed.

Lemma nonpositive_term_is_rejected_witness :
  0 <= 0 /\
  init (dec 1000 0) (dec 12 0) (mkdate 2024 1 15) 0 "30/360" "A" = Raise DivisionByZero.
Proof.
  split; [lia|].
  exact (proj2 (nonpositive_term_is_rejected
                  (dec 1000 0) (dec 12 0) (mkdate 2024 1 15) 0 "30/360" "A"
                  (Z.le_refl 0))
           (dec 12 2) 1 DayCountConvention.year_fraction_30_360
           eq_refl eq_refl eq_refl).
Defined.

(** A negative principal with a positive term is accepted: the constructor
    returns an object with a negative installment and [get_schedule]
    returns a row. *)
Lemma nonpositive_principal_is_accepted :
  Decimal.coef (dec (-1000) 0) <= 0 /\
  init (dec (-1000) 0) (dec 12 0) (mkdate 2024 1 15) 1 "30/360" "A"
  = Ok negative_loan /\
  emi negative_loan = dec (-112000) 2 /\
  is_ok (get_schedule negative_loan) = true.
Proof.
  split; [cbn; lia|]. split; [|split; [reflexivity|vm_compute; reflexivity]].
  constructed (dec 12 2) 1 DayCountConvention.year_fraction_30_360 (dec (-112000) 2).
Qed.

(** ** The installment solver against its specification *)

Section Solver.

Import Decimal.

Lemma foldl_accumulate_Raise rate f ex l :
  foldl (accumulate_period rate f) (Raise ex) l = Raise ex.
Proof. induction l as [|x l IH]; [reflexivity|exact IH]. Qed.

Lemma emi_loop_foldl self pays : forall prev F product,
  emi_loop self pays prev F product
  = (foldl (accumulate_period (R self) (dcc self)) (Ok (product, F))
           (zip (prev :: pays) pays))
    ≫= (fun '(_, F) => Ok F).
Proof.
  induction pays as [|pay rest IH]; intros prev F product.
  - reflexivity.
  - cbn [emi_loop]. change (zip (prev :: pay :: rest) (pay :: rest))
      with ((prev, pay) :: zip (pay :: rest) rest).
    cbn [foldl]. unfold accumulate_period at 2. cbn [fst snd mbind result_bind].
    destruct (dcc self prev pay) as [[yf days]|ex]; cbn;
      [|rewrite foldl_accumulate_Raise; reflexivity].
    destruct (mul (R self) yf) as [ryf|ex]; cbn;
      [|rewrite foldl_accumulate_Raise; reflexivity].
    destruct (add (of_Z 1) ryf) as [factor|ex]; cbn;
      [|rewrite foldl_accumulate_Raise; reflexivity].
    destruct (mul product factor) as [product'|ex]; cbn;
      [|rewrite foldl_accumulate_Raise; reflexivity].
    destruct (div (of_Z 1) product') as [inv|ex]; cbn;
      [|rewrite foldl_accumulate_Raise; reflexivity].
    destruct (add F inv) as [F'|ex]; cbn;
      [|rewrite foldl_accumulate_Raise; reflexivity].
    apply IH.
Qed.

End Solver.

(** C3. The installment of a constructed calculator is the one the
    specification describes: over the consecutive pairs of the generated
    dates, with the accumulators starting at 1 and 0, each operation being
    the decimal operation of the module's context, and the quotient
    [principal / F] rounded by [finance_round] to 2 digits. *)
Theorem installment_follows_specification principal annual_rate start yrs conv freq self :
  init principal annual_rate start yrs conv freq = Ok self ->
  exists dates,
    _generate_payment_dates self = Ok dates /\
    installment_spec principal annual_rate (dcc self) dates = Ok (emi self).
Proof.
  intros Hi.
  apply init_inv in Hi as (r & ppy & f & e & Hr & _ & _ & He & ->).
  unfold calculate_emi in He. inv_bind He as dates Hd. inv_bind He as F HF.
  exists dates. split; [exact Hd|].
  unfold installment_spec. rewrite Hr. cbn [mbind result_bind dcc emi].
  rewrite emi_loop_foldl in HF. cbn [R dcc start_date] in HF.
  pose proof Hd as Hd'.
  apply generate_payment_dates_inv in Hd' as (new & -> & _ & _).
  cbn [start_date] in *. unfold consecutive_pairs.
  change (drop 1 (start :: new)) with new in HF |- *.
  inv_bind HF as [product F'] Hfold. injection HF as ->.
  rewrite Hfold. cbn. exact He.
Qed.

Lemma installment_follows_specification_witness :
  init (dec 100000 2) (dec 12 0) (mkdate 2024 1 15) 1 "30/360" "Q" = Ok quarterly_loan /\
  exists dates,
    _generate_payment_dates quarterly_loan = Ok dates /\
    installment_spec (dec 100000 2) (dec 12 0) (dcc quarterly_loan) dates
    = Ok (emi quarterly_loan).
Proof.
  assert (Hi : init (dec 100000 2) (dec 12 0) (mkdate 2024 1 15) 1 "30/360" "Q"
               = Ok quarterly_loan)
    by (constructed (dec 12 2) 4 DayCountConvention.year_fraction_30_360 (dec 26903 2)).
  split; [exact Hi|].
  exact (installment_follows_specification _ _ _ _ _ _ _ Hi).
Defined.

(** ** The balance identities of the schedule *)

Lemma get_schedule_balanced principal annual_rate start yrs conv freq self rows :
  init principal annual_rate start yrs conv freq = Ok self ->
  -2 <= Decimal.expo principal ->
  get_schedule self = Ok rows ->
  Forall balanced_row rows.
Proof.
  intros Hi Hp H.
  destruct (init_emi_cents _ _ _ _ _ _ _ Hi) as (E & HE & HEb).
  apply init_inv in Hi as (r & ppy & f & e & _ & _ & _ & _ & ->).
  apply get_schedule_inv in H as (new & _ & _ & Hr).
  eapply schedule_rows_balanced; [exact HE|exact HEb| |exact Hr].
  exact Hp.
Qed.

(** C2, as the code has it. For a principal given with at most two
    fractional digits, every row of a schedule is in cents and satisfies,
    exactly, opening balance = principal component + closing balance and
    installment = principal component + interest component; the interest is
    not part of the balance identity. *)
Theorem row_balance_identity principal annual_rate start yrs conv freq self rows :
  init principal annual_rate start yrs conv freq = Ok self ->
  -2 <= Decimal.expo principal ->
  get_schedule self = Ok rows ->
  Forall (fun r =>
            row_in_cents r /\
            Decimal.coef (Opening_Balance r)
            = Decimal.coef (Principal r) + Decimal.coef (Closing_Balance r) /\
            Decimal.coef (EMI r)
            = Decimal.coef (Principal r) + Decimal.coef (Interest r)) rows.
Proof.
  intros Hi Hp H. exact (get_schedule_balanced _ _ _ _ _ _ _ _ Hi Hp H).
Qed.

Lemma quarterly_loan_constructed :
  init (dec 100000 2) (dec 12 0) (mkdate 2024 1 15) 1 "30/360" "Q" = Ok quarterly_loan.
Proof.
  constructed (dec 12 2) 4 DayCountConvention.year_fraction_30_360 (dec 26903 2).
Defined.

Lemma quarterly_loan_schedule :
  get_schedule quarterly_loan = Ok (rows_of quarterly_loan).
Proof. vm_compute. reflexivity. Defined.

Lemma row_balance_identity_witness :
  -2 <= Decimal.expo (dec 100000 2) /\
  Forall (fun r =>
            row_in_cents r /\
            Decimal.coef (Opening_Balance r)
            = Decimal.coef (Principal r) + Decimal.coef (Closing_Balance r) /\
            Decimal.coef (EMI r)
            = Decimal.coef (Principal r) + Decimal.coef (Interest r))
         (rows_of quarterly_loan).
Proof.
  assert (Hp : -2 <= Decimal.expo (dec 100000 2)) by (cbn; lia).
  split; [exact Hp|].
  exact (row_balance_identity _ _ _ _ _ _ _ _
           quarterly_loan_constructed Hp quarterly_loan_schedule).
Defined.

(** In the first row of the quarterly loan the opening balance 1000.00 is
    not 239.03 + 30.00 + 760.97. *)
Lemma opening_is_not_principal_plus_interest_plus_closing :
  init (dec 100000 2) (dec 12 0) (mkdate 2024 1 15) 1 "30/360" "Q" = Ok quarterly_loan /\
  get_schedule quarterly_loan = Ok (rows_of quarterly_loan) /\
  exists row,
    rows_of quarterly_loan !! 0%nat = Some row /\
    Decimal.coef (Opening_Balance row)
    <> Decimal.coef (Principal row) + Decimal.coef (Interest row)
       + Decimal.coef (Closing_Balance row).
Proof.
  split; [exact quarterly_loan_constructed|].
  split; [exact quarterly_loan_schedule|].
  eexists. split; [vm_compute; reflexivity|]. vm_compute. discriminate.
Qed.

(** C9, as the code has it. For a principal given with at most two
    fractional digits, every row is in cents and its opening balance minus
    its principal component is its closing balance, exactly. *)
Theorem opening_minus_principal_is_closing
    principal annual_rate start yrs conv freq self rows :
  init principal annual_rate start yrs conv freq = Ok self ->
  -2 <= Decimal.expo principal ->
  get_schedule self = Ok rows ->
  Forall (fun r =>
            row_in_cents r /\
            Decimal.coef (Opening_Balance r) - Decimal.coef (Principal r)
            = Decimal.coef (Closing_Balance r)) rows.
Proof.
  intros Hi Hp H.
  eapply Forall_impl; [exact (get_schedule_balanced _ _ _ _ _ _ _ _ Hi Hp H)|].
  intros r (Hc & Ho & _). split; [exact Hc|lia].
Qed.

Lemma opening_minus_principal_is_closing_witness :
  -2 <= Decimal.expo (dec 100000 2) /\
  Forall (fun r =>
            row_in_cents r /\
            Decimal.coef (Opening_Balance r) - Decimal.coef (Principal r)
            = Decimal.coef (Closing_Balance r))
         (rows_of quarterly_loan).
Proof.
  assert (Hp : -2 <= Decimal.expo (dec 100000 2)) by (cbn; lia).
  split; [exact Hp|].
  exact (opening_minus_principal_is_closing _ _ _ _ _ _ _ _
           quarterly_loan_constructed Hp quarterly_loan_schedule).
Defined.

Lemma fractional_loan_constructed :
  init (dec 10000005 3) (dec 9 0) (mkdate 2024 1 31) 1 "Actual/365" "Q"
  = Ok fractional_loan.
Proof.
  constructed (dec 9 2) 4 DayCountConvention.year_fraction_actual_365 (dec 264210 2).
Defined.

Lemma fractional_loan_schedule :
  get_schedule fractional_loan = Ok (rows_of fractional_loan).
Proof. vm_compute. reflexivity. Defined.

(** With the principal 10000.005 the second row opens at 7579.82, repays
    2470.15 and closes at 5109.68, one cent more than the difference: the
    balance 5109.675 is a tie that half-even rounds up, while the balance
    7579.825 before it was a tie rounded down. *)
Lemma opening_minus_principal_differs_from_closing :
  init (dec 10000005 3) (dec 9 0) (mkdate 2024 1 31) 1 "Actual/365" "Q"
  = Ok fractional_loan /\
  get_schedule fractional_loan = Ok (rows_of fractional_loan) /\
  exists row,
    rows_of fractional_loan !! 1%nat = Some row /\
    Decimal.coef (Opening_Balance row) - Decimal.coef (Principal row)
    <> Decimal.coef (Closing_Balance row).
Proof.
  split; [exact fractional_loan_constructed|].
  split; [exact fractional_loan_schedule|].
  eexists. split; [vm_compute; reflexivity|]. vm_compute. discriminate.
Qed.

(** ** The principal column *)

Lemma init_principal principal annual_rate start yrs conv freq self :
  init principal annual_rate start yrs conv freq = Ok self -> P self = principal.
Proof.
  intros Hi. apply init_inv in Hi as (r & ppy & f & e & _ & _ & _ & _ & ->).
  reflexivity.
Qed.





(** * Further properties of the code *)

(** ** The rounding utility *)

Section FinanceRound.

Import Decimal.

Lemma round_half_even_nearest n m :
  0 <= n -> 0 < m ->
  let r := round_half_even n m in
  0 <= r /\ 2 * Z.abs (n - r * m) <= m /\
  (2 * Z.abs (n - r * m) = m -> Z.even r = true).
Proof.
  intros Hn Hm. unfold round_half_even, rounds_up.
  pose proof (Z.div_mod n m ltac:(lia)) as Hdm.
  pose proof (Z.mod_pos_bound n m Hm) as Hr.
  assert (Hq : 0 <= n / m) by (apply Z.div_pos; lia).
  set (q := n / m) in *. set (r := n mod m) in *.
  destruct (Z.ltb_spec (2 * r) m) as [Hlt|Hge].
  - cbv zeta. split; [lia|]. split; [nia|]. intros Heq. exfalso. nia.
  - destruct (Z.ltb_spec m (2 * r)) as [Hgt|Hle].
    + cbv zeta. split; [lia|]. split; [nia|]. intros Heq. exfalso. nia.
    + destruct (Z.odd q) eqn:Hodd; cbv zeta.
      * split; [lia|]. split; [nia|]. intros _.
        rewrite Z.even_add, <- Z.negb_odd, Hodd. reflexivity.
      * split; [lia|]. split; [nia|]. intros _.
        rewrite <- Z.negb_odd, Hodd. reflexivity.
Qed.



(** X2. Rounding twice is rounding once. *)
Theorem finance_round_idempotent d q :
  finance_round d 2 = Ok q -> finance_round q 2 = Ok q.
Proof.
  intros H. apply finance_round_cents in H as (c & -> & Hc).
  rewrite finance_round_2. apply quantize_cents. exact Hc.
Qed.

Lemma finance_round_idempotent_witness :
  finance_round (dec 2675 3) 2 = Ok (dec 268 2) /\
  finance_round (dec 268 2) 2 = Ok (dec 268 2).
Proof.
  assert (H : finance_round (dec 2675 3) 2 = Ok (dec 268 2))
    by (vm_compute; reflexivity).
  split; [exact H|]. exact (finance_round_idempotent _ _ H).
Defined.

(** X3. [finance_round] raises on every non-zero value whose leading digit is
    at 10^26 or above (its cents would need more than 28 digits), and
    returns on every value whose leading digit is at 10^24 or below. *)
Theorem finance_round_domain d :
  (coef d <> 0 -> 26 <= adjusted d -> finance_round d 2 = Raise InvalidOperation) /\
  (adjusted d <= 24 -> exists q, finance_round d 2 = Ok q).
Proof.
  rewrite finance_round_2, quantize_unfold. split.
  - intros Hc Ha. destruct (Z.eqb_spec (coef d) 0); [contradiction|].
    destruct (Emax <? adjusted d); [reflexivity|].
    destruct (Z.ltb_spec 28 (adjusted d - -2 + 1)); [reflexivity|lia].
  - intros Ha. destruct (Z.eqb_spec (coef d) 0) as [Hz|Hnz].
    + exists (mk 0 (-2)). apply fix_id; [cbn; lia|ctx_consts; lia].
    + assert (Hn : 0 < Z.abs (coef d)) by lia.
      destruct (coeff_len_spec _ Hn) as (Hl1 & Hlo & Hhi).
      pose proof Ha as Ha'. unfold adjusted in Ha.
      set (L := coeff_len (Z.abs (coef d))) in *.
      assert (Hans : Z.abs (coef (rescale d (-2))) < 10 ^ 28 /\
                     expo (rescale d (-2)) = -2).
      { unfold rescale. destruct (Z.leb_spec (-2) (expo d)) as [Hge|Hlt]; cbn [coef expo].
        - split; [|reflexivity].
          rewrite Z.abs_mul, (Z.abs_eq (10 ^ _)) by (apply Z.pow_nonneg; lia).
          replace (expo d - -2) with (expo d + 2) by lia.
          assert (10 ^ L * 10 ^ (expo d + 2) <= 10 ^ 27).
          { rewrite <- Z.pow_add_r by lia. apply Z.pow_le_mono_r; lia. }
          pose proof (pow10_gt0 (expo d + 2) ltac:(lia)). nia.
        - split; [|reflexivity].
          set (m := 10 ^ (-2 - expo d)).
          assert (Hm : 0 < m) by (apply pow10_gt0; lia).
          destruct (round_half_even_nearest (Z.abs (coef d)) m ltac:(lia) Hm)
            as (Hr0 & Hnear & _).
          set (r := round_half_even (Z.abs (coef d)) m) in *.
          rewrite abs_sgn_mul by assumption.
          assert (Hr : r <= Z.abs (coef d) / m + 1).
          { unfold r, round_half_even. destruct (rounds_up _ _); lia. }
          assert (Hdiv : Z.abs (coef d) / m < 10 ^ 27).
          { apply Z.div_lt_upper_bound; [lia|].
            destruct (Z.le_gt_cases 0 (L + expo d + 2)) as [Hpos|Hneg].
            - assert (10 ^ L <= m * 10 ^ (L + expo d + 2)).
              { unfold m. rewrite <- Z.pow_add_r by lia. apply Z.pow_le_mono_r; lia. }
              assert (10 ^ (L + expo d + 2) <= 10 ^ 27) by (apply Z.pow_le_mono_r; lia).
              nia.
            - assert (10 ^ L <= m) by (unfold m; apply Z.pow_le_mono_r; lia).
              change (10 ^ 27) with 1000000000000000000000000000. nia. }
          change (10 ^ 28) with 10000000000000000000000000000.
          change (10 ^ 27) with 1000000000000000000000000000 in Hdiv. lia. }
      destruct Hans as [Hb He].
      destruct (rescale d (-2)) as [c' e'] eqn:Hres. cbn [coef expo] in *. subst e'.
      assert (Hadj : adjusted (mk c' (-2)) <= 26).
      { unfold adjusted. cbn [coef expo].
        destruct (Z.eq_dec c' 0) as [->|Hc']; [vm_compute; discriminate|].
        pose proof (coeff_len_le (Z.abs c') 28 ltac:(lia)). lia. }
      ctx_consts.
      destruct (Z.ltb_spec 999999 (adjusted d)); [lia|].
      destruct (Z.ltb_spec 28 (adjusted d - -2 + 1)); [lia|].
      cbv zeta.
      destruct (Z.ltb_spec 999999 (adjusted (mk c' (-2)))); [lia|].
      cbn [coef].
      destruct (Z.ltb_spec 28 (coeff_len (Z.abs c'))) as [Hlen|_].
      { destruct (Z.eq_dec c' 0) as [->|Hc']; [vm_compute in Hlen; discriminate|].
        pose proof (coeff_len_le (Z.abs c') 28 ltac:(lia)). lia. }
      exists (mk c' (-2)). apply fix_id; [exact Hb|ctx_consts; lia].
Qed.

Lemma finance_round_domain_witness :
  Decimal.adjusted (Decimal.mk 1 26) = 26 /\
  finance_round (Decimal.mk 1 26) 2 = Raise InvalidOperation /\
  Decimal.adjusted (dec 2675 3) <= 24 /\
  exists q, finance_round (dec 2675 3) 2 = Ok q.
Proof.
  split; [reflexivity|].
  split.
  - apply (proj1 (finance_round_domain (Decimal.mk 1 26))).
    + cbn. lia.
    + vm_compute. discriminate.
  - assert (Ha : Decimal.adjusted (dec 2675 3) <= 24) by (vm_compute; discriminate).
    split; [exact Ha|].
    exact (proj2 (finance_round_domain (dec 2675 3)) Ha).
Defined.

End FinanceRound.

(** ** Shape of the schedule *)

Section ScheduleShape.

Import Decimal.

Lemma finance_round_amount d q : finance_round d 2 = Ok q -> is_cents_amount q.
Proof.
  intros H. apply finance_round_cents in H as (c & -> & Hc). split; [reflexivity|exact Hc].
Qed.

(** What every iteration of the loop of [get_schedule] appends, whatever
    the balance it starts from. *)
Lemma schedule_step_fields self i prev pay b row b' :
  schedule_step self i prev pay b = Ok (row, b') ->
  Payment_No row = i /\ Payment_Date row = pay /\
  is_cents_amount (Opening_Balance row) /\ is_cents_amount (Principal row) /\
  is_cents_amount (Interest row) /\ is_cents_amount (EMI row) /\
  is_cents_amount (Closing_Balance row) /\
  (i <> terms self -> finance_round (emi self) 2 = Ok (EMI row)).
Proof.
  intros H. unfold schedule_step in H.
  inv_bind H as [yf days] Hyf.
  inv_bind H as br Hbr. inv_bind H as bry Hbry.
  inv_bind H as interest Hint.
  inv_bind H as principal Hprin.
  inv_bind H as balance Hbal.
  inv_bind H as [[principal' e] balance'] Hbranch.
  inv_bind H as ob Hob. inv_bind H as opening Hopen.
  inv_bind H as rprincipal Hrp. inv_bind H as rinterest Hri.
  inv_bind H as remi Hre. inv_bind H as closing Hcl.
  injection H as <- <-.
  cbn [Payment_No Payment_Date Opening_Balance Principal Interest EMI Closing_Balance].
  repeat (split; [first [reflexivity | eapply finance_round_amount; eassumption]|]).
  intros Hi. destruct (Z.eqb_spec i (terms self)) as [|_]; [contradiction|].
  injection Hbranch as <- <- <-. exact Hre.
Qed.

Lemma schedule_rows_fields self l : forall k b p rows,
  schedule_rows self (enumerate k l) b p = Ok rows ->
  forall i r, rows !! i = Some r ->
    Payment_No r = k + Z.of_nat i /\ l !! i = Some (Payment_Date r) /\
    is_cents_amount (Opening_Balance r) /\ is_cents_amount (Principal r) /\
    is_cents_amount (Interest r) /\ is_cents_amount (EMI r) /\
    is_cents_amount (Closing_Balance r) /\
    (k + Z.of_nat i <> terms self -> finance_round (emi self) 2 = Ok (EMI r)).
Proof.
  induction l as [|x l IH]; intros k b p rows H i r Hr; cbn [enumerate schedule_rows] in H.
  - injection H as <-. destruct i; discriminate.
  - inv_bind H as [row b'] Hs. inv_bind H as rows' Hrows. injection H as <-.
    destruct i as [|i].
    + cbn in Hr. injection Hr as <-.
      apply schedule_step_fields in Hs as (Hn & Hd & Hrest).
      rewrite Z.add_0_r. split; [exact Hn|]. split; [cbn; congruence|exact Hrest].
    + cbn in Hr. destruct (IH (k + 1) b' x rows' Hrows i r Hr) as (Hn & Hd & Hrest).
      replace (k + Z.of_nat (S i)) with (k + 1 + Z.of_nat i) by lia.
      split; [exact Hn|]. split; [exact Hd|exact Hrest].
Qed.

Lemma get_schedule_columns_cents self rows :
  get_schedule self = Ok rows ->
  Forall (fun r => is_cents_amount (Principal r) /\ is_cents_amount (Interest r)) rows.
Proof.
  intros H. apply get_schedule_inv in H as (new & _ & _ & Hr).
  apply Forall_lookup_2. intros i r Hi.
  destruct (schedule_rows_fields _ _ _ _ _ _ Hr i r Hi)
    as (_ & _ & _ & Hp & Hin & _).
  auto.
Qed.

End ScheduleShape.

(** X4. Row [i] of a schedule carries the payment number [i] (counted from 1)
    and the [i]-th generated date after the start date. *)
Theorem rows_follow_payment_dates self rows :
  get_schedule self = Ok rows ->
  exists dates,
    _generate_payment_dates self = Ok dates /\
    length dates = S (length rows) /\
    forall i r, rows !! i = Some r ->
      Payment_No r = Z.of_nat i + 1 /\ dates !! S i = Some (Payment_Date r).
Proof.
  intros H. unfold get_schedule in H. inv_bind H as dates Hd.
  exists dates. split; [exact Hd|].
  apply generate_payment_dates_inv in Hd as (new & -> & _ & _).
  rewrite schedule_loop_eq in H. inv_bind H as rows' Hr. injection H as <-.
  change (drop 1 (start_date self :: new)) with new in Hr.
  split.
  - apply schedule_rows_length in Hr. rewrite enumerate_length in Hr. cbn. lia.
  - intros i r Hi.
    destruct (schedule_rows_fields _ _ _ _ _ _ Hr i r Hi) as (Hn & Hdate & _).
    split; [lia|exact Hdate].
Qed.

Lemma rows_follow_payment_dates_witness :
  get_schedule quarterly_loan = Ok (rows_of quarterly_loan) /\
  exists dates,
    _generate_payment_dates quarterly_loan = Ok dates /\
    length dates = S (length (rows_of quarterly_loan)) /\
    forall i r, rows_of quarterly_loan !! i = Some r ->
      Payment_No r = Z.of_nat i + 1 /\ dates !! S i = Some (Payment_Date r).
Proof.
  split; [exact quarterly_loan_schedule|].
  exact (rows_follow_payment_dates _ _ quarterly_loan_schedule).
Defined.



(** X6. Every row but the last carries the installment of the calculator
    unchanged. *)
Theorem installment_is_level principal annual_rate start yrs conv freq self rows :
  init principal annual_rate start yrs conv freq = Ok self ->
  get_schedule self = Ok rows ->
  forall i r, rows !! i = Some r -> Z.of_nat i + 1 <> terms self -> EMI r = emi self.
Proof.
  intros Hi H i r Hr Hn.
  destruct (init_emi_cents _ _ _ _ _ _ _ Hi) as (E & HE & HEb).
  apply get_schedule_inv in H as (new & _ & _ & Hrows).
  destruct (schedule_rows_fields _ _ _ _ _ _ Hrows i r Hr)
    as (_ & _ & _ & _ & _ & _ & _ & Hemi).
  specialize (Hemi ltac:(lia)).
  rewrite HE, finance_round_2, quantize_cents in Hemi by exact HEb.
  rewrite HE. congruence.
Qed.

Lemma installment_is_level_witness :
  init (dec 100000 2) (dec 12 0) (mkdate 2024 1 15) 1 "30/360" "Q" = Ok quarterly_loan /\
  get_schedule quarterly_loan = Ok (rows_of quarterly_loan) /\
  forall i r, rows_of quarterly_loan !! i = Some r ->
              Z.of_nat i + 1 <> terms quarterly_loan -> EMI r = emi quarterly_loan.
Proof.
  split; [exact quarterly_loan_constructed|].
  split; [exact quarterly_loan_schedule|].
  exact (installment_is_level _ _ _ _ _ _ _ _
           quarterly_loan_constructed quarterly_loan_schedule).
Defined.

(** ** Balances from row to row *)

Lemma cents_value_of_cents c : cents_value (cents c) = c.
Proof. unfold cents_value, cents. cbn [Decimal.coef Decimal.expo]. change (-2 + 2) with 0. lia. Qed.

Section Linked.

Import Decimal.

Variable self : EMI_Calculator.
Variable E : Z.
Hypothesis emi_cents : emi self = cents E.
Hypothesis emi_bound : Z.abs E < 10 ^ 28.

Lemma schedule_rows_linked l : forall k b p rows,
  Z.abs E < 10 ^ 27 ->
  l <> [] -> k + Z.of_nat (length l) - 1 = terms self ->
  -2 <= expo b -> Z.abs (cents_value b) < 10 ^ 27 ->
  forallb modest_row rows = true ->
  schedule_rows self (enumerate k l) b p = Ok rows ->
  (exists r0 rest, rows = r0 :: rest /\ Opening_Balance r0 = cents (cents_value b)) /\
  (forall i r r', rows !! i = Some r -> rows !! S i = Some r' ->
                  Opening_Balance r' = Closing_Balance r).
Proof.
  induction l as [|x l IH]; intros k b p rows HE Hne Hk Hb Hsmall Hrows H;
    [contradiction|].
  cbn [enumerate schedule_rows] in H.
  inv_bind H as [row b'] Hs. inv_bind H as rows' Hr. injection H as <-.
  cbn [forallb] in Hrows. apply andb_prop in Hrows as [Hrow Hrows].
  apply andb_prop in Hrow as [HrI HrC].
  apply Z.ltb_lt in HrI, HrC.
  destruct l as [|y l].
  - cbn in Hr. injection Hr as <-.
    assert (Hi : k = terms self) by (cbn in Hk; lia).
    destruct (schedule_step_last self E emi_cents _ _ _ _ _ _ Hi Hb Hs)
      as (I & S & _ & _ & HI & _ & _ & HO & _ & _ & _ & Hexact).
    rewrite HI in HrI. cbn [coef cents] in HrI.
    split.
    + exists row, []. split; [reflexivity|]. rewrite HO. f_equal. apply Hexact; lia.
    + intros i r r' _ Hr'. destruct i; discriminate.
  - assert (Hi : k <> terms self) by (cbn [length] in Hk; lia).
    destruct (schedule_step_inner self E emi_cents emi_bound _ _ _ _ _ _ Hi Hb Hs)
      as (I & _ & _ & HI & _ & _ & HO & HC & ->).
    pose proof HrC as HrC'. rewrite HC in HrC'. cbn [coef cents] in HrC'.
    destruct (IH (k + 1) (cents (cents_value b - (E - I))) x rows') as (Hhead & Hlink);
      try assumption.
    + discriminate.
    + cbn [length] in *. lia.
    + cbn. lia.
    + rewrite cents_value_of_cents. assumption.
    + destruct Hhead as (r0 & rest & -> & Hr0). rewrite cents_value_of_cents in Hr0.
      split.
      * exists row, (r0 :: rest). auto.
      * intros i r r' Hri Hri'. destruct i as [|i].
        -- cbn in Hri, Hri'. injection Hri as <-. injection Hri' as <-.
           rewrite Hr0, HC. reflexivity.
        -- exact (Hlink i r r' Hri Hri').
Qed.

End Linked.

(** X7. For a principal in cents and modest amounts, the first row opens at the
    principal and every later row opens at the closing balance of the row
    before it. *)
Theorem opening_continues_previous_closing
    principal annual_rate start yrs conv freq self rows :
  init principal annual_rate start yrs conv freq = Ok self ->
  1 <= terms self ->
  -2 <= Decimal.expo principal ->
  get_schedule self = Ok rows ->
  modest self rows = true ->
  (forall r, rows !! 0%nat = Some r ->
             Opening_Balance r = cents (cents_value principal)) /\
  (forall i r r', rows !! i = Some r -> rows !! S i = Some r' ->
                  Opening_Balance r' = Closing_Balance r).
Proof.
  intros Hi Ht Hp H Hm.
  destruct (init_emi_cents _ _ _ _ _ _ _ Hi) as (E & HE & HEb).
  pose proof (init_principal _ _ _ _ _ _ _ Hi) as HPs.
  apply get_schedule_inv in H as (new & _ & Hl & Hr).
  unfold modest in Hm. apply andb_prop in Hm as [Hm Hrows].
  apply andb_prop in Hm as [HP HEm]. apply Z.ltb_lt in HP, HEm.
  rewrite HE in HEm. cbn in HEm. rewrite HPs in *.
  destruct (schedule_rows_linked self E HE HEb new 1 principal (start_date self) rows)
    as (Hhead & Hlink); try assumption.
  - destruct new; [cbn in Hl; lia|discriminate].
  - rewrite Hl. lia.
  - split; [|exact Hlink].
    destruct Hhead as (r0 & rest & -> & Hr0). intros r [= <-]. exact Hr0.
Qed.

Lemma opening_continues_previous_closing_witness :
  1 <= terms quarterly_loan /\
  -2 <= Decimal.expo (dec 100000 2) /\
  modest quarterly_loan (rows_of quarterly_loan) = true /\
  forall i r r', rows_of quarterly_loan !! i = Some r ->
                 rows_of quarterly_loan !! S i = Some r' ->
                 Opening_Balance r' = Closing_Balance r.
Proof.
  assert (Ht : 1 <= terms quarterly_loan) by (cbn; lia).
  assert (Hp : -2 <= Decimal.expo (dec 100000 2)) by (cbn; lia).
  assert (Hm : modest quarterly_loan (rows_of quarterly_loan) = true)
    by (vm_compute; reflexivity).
  split; [exact Ht|]. split; [exact Hp|]. split; [exact Hm|].
  exact (proj2 (opening_continues_previous_closing _ _ _ _ _ _ _ _
                  quarterly_loan_constructed Ht Hp quarterly_loan_schedule Hm)).
Defined.

(** ** The totals of the summary *)

Section Totals.

Import Decimal.

Lemma fix_cents c : Z.abs c < 10 ^ 28 -> fix_ (cents c) = Ok (cents c).
Proof. intros Hc. apply fix_id; [exact Hc|ctx_consts; lia]. Qed.

Lemma cents_amount_eq d : is_cents_amount d -> d = cents (coef d).
Proof. destruct d as [c e]. intros [He _]. cbn in *. subst. reflexivity. Qed.

Lemma py_sum_column (f : Row -> Decimal) rows : forall acc,
  -2 <= expo acc ->
  Forall (fun r => is_cents_amount (f r)) rows ->
  Z.abs (cents_value acc) + column_abs_sum f rows < 10 ^ 28 ->
  rows <> [] ->
  py_sum acc (map f rows) = Ok (cents (cents_value acc + column_sum f rows)).
Proof.
  induction rows as [|r rows IH]; intros acc Hacc Hall Hb Hne; [contradiction|].
  apply Forall_cons in Hall as [Hr Hall].
  cbn [map py_sum column_sum column_abs_sum foldr] in *.
  fold (column_sum f rows). fold (column_abs_sum f rows) in Hb.
  assert (Hnn : 0 <= column_abs_sum f rows).
  { clear. induction rows as [|x rows IH]; cbn; [lia|].
    fold (column_abs_sum f rows). lia. }
  rewrite (cents_amount_eq _ Hr) at 1.
  change (cents_value acc) with (coef acc * 10 ^ (expo acc + 2)) in *.
  rewrite add_cents_r by exact Hacc.
  rewrite fix_cents by lia.
  cbn [mbind result_bind].
  destruct rows as [|r' rows'].
  - cbn. f_equal. f_equal. lia.
  - rewrite IH.
    + rewrite cents_value_of_cents. f_equal. f_equal. lia.
    + cbn. lia.
    + exact Hall.
    + rewrite cents_value_of_cents. lia.
    + discriminate.
Qed.

Lemma column_abs_sum_bound (f : Row -> Decimal) rows :
  Z.abs (column_sum f rows) <= column_abs_sum f rows.
Proof.
  induction rows as [|r rows IH]; cbn; [lia|].
  fold (column_sum f rows). fold (column_abs_sum f rows). lia.
Qed.

End Totals.

(** X8. When the magnitudes of the principal and interest columns together stay
    below 10^28 cents, the summary of [print_schedule] is exact: total
    principal and total interest are the column sums, and total payments is
    their sum. *)
Theorem print_schedule_totals_add_up self rows :
  get_schedule self = Ok rows ->
  column_abs_sum Principal rows + column_abs_sum Interest rows < 10 ^ 28 ->
  print_schedule_totals self
  = Ok (cents (column_sum Principal rows + column_sum Interest rows),
        cents (column_sum Principal rows),
        cents (column_sum Interest rows)).
Proof.
  intros H Hb. unfold print_schedule_totals. rewrite H. cbn [mbind result_bind].
  destruct rows as [|r rows]; [vm_compute; reflexivity|].
  pose proof (get_schedule_columns_cents _ _ H) as Hall.
  pose proof (column_abs_sum_bound Principal (r :: rows)) as HbP.
  pose proof (column_abs_sum_bound Interest (r :: rows)) as HbI.
  assert (HnP : 0 <= column_abs_sum Principal (r :: rows)) by lia.
  assert (HnI : 0 <= column_abs_sum Interest (r :: rows)) by lia.
  rewrite (py_sum_column Principal (r :: rows) (Decimal.of_Z 0)); cycle 1.
  - cbn. lia.
  - eapply Forall_impl; [exact Hall|]. intros x Hx. apply Hx.
  - change (cents_value (Decimal.of_Z 0)) with 0. lia.
  - discriminate.
  - cbn [mbind result_bind].
    rewrite (py_sum_column Interest (r :: rows) (Decimal.of_Z 0)); cycle 1.
    + cbn. lia.
    + eapply Forall_impl; [exact Hall|]. intros x Hx. apply Hx.
    + change (cents_value (Decimal.of_Z 0)) with 0. lia.
    + discriminate.
    + cbn [mbind result_bind]. change (cents_value (Decimal.of_Z 0)) with 0.
      rewrite !Z.add_0_l. rewrite add_cents, fix_cents by lia.
      cbn [mbind result_bind]. rewrite !finance_round_2.
      rewrite !quantize_cents by lia. reflexivity.
Qed.

Lemma print_schedule_totals_add_up_witness :
  column_abs_sum Principal (rows_of quarterly_loan)
  + column_abs_sum Interest (rows_of quarterly_loan) < 10 ^ 28 /\
  print_schedule_totals quarterly_loan
  = Ok (cents (column_sum Principal (rows_of quarterly_loan)
               + column_sum Interest (rows_of quarterly_loan)),
        cents (column_sum Principal (rows_of quarterly_loan)),
        cents (column_sum Interest (rows_of quarterly_loan))).
Proof.
  assert (Hb : column_abs_sum Principal (rows_of quarterly_loan)
               + column_abs_sum Interest (rows_of quarterly_loan) < 10 ^ 28)
    by (vm_compute; reflexivity).
  split; [exact Hb|].
  exact (print_schedule_totals_add_up _ _ quarterly_loan_schedule Hb).
Defined.

(** ** A loan without interest *)

Section ZeroRate.

Import Decimal.








End ZeroRate.





(** ** Rolling by months *)

(** X10. With a month-based frequency and a valid start date, a date that is not
    the last day of its month is followed by the same day of the month 1,
    3, 6 or 12 calendar months later, clamped to the length of that month;
    the clamped date is then a month end, and the sequence stays on month
    ends from there on. *)
Theorem other_days_are_kept_or_clamped self dates :
  frequency self ∈ ["M"; "Q"; "S"; "A"] ->
  valid_date (start_date self) = true ->
  _generate_payment_dates self = Ok dates ->
  exists k, (frequency self, k) ∈ [("M", 1); ("Q", 3); ("S", 6); ("A", 12)] /\
    forall i a b, dates !! i = Some a -> dates !! S i = Some b ->
      is_month_end a = false ->
      year b * 12 + month b = year a * 12 + month a + k /\
      day b = Z.min (days_in_month (year b) (month b)) (day a) /\
      (days_in_month (year b) (month b) <= day a -> is_month_end b = true).
Proof.
  intros Hf Hv H. apply generate_payment_dates_inv in H as (new & -> & Hn & _).
  destruct (roll_month_step (frequency self) (start_date self) Hf) as (k & Hk & _ & _).
  exists k. split; [exact Hk|].
  pose proof (roll_dates_valid _ _ _ _ Hf Hv Hn) as Hall.
  rewrite Forall_lookup in Hall.
  intros i a b Ha Hb He.
  pose proof (roll_dates_chain _ _ _ _ Hn i a b Ha Hb) as Hr.
  destruct (roll_month_target _ _ _ Hf (Hall _ _ Ha) Hr)
    as (k' & Hk' & Hvb & Hym & Hday).
  rewrite (month_step_unique _ _ _ Hk Hk') in Hym. rewrite He in Hday.
  split; [exact Hym|]. split; [exact Hday|].
  intros Hle. apply is_month_end_spec. lia.
Qed.

Lemma other_days_are_kept_or_clamped_witness :
  frequency drifting_loan ∈ ["M"; "Q"; "S"; "A"] /\
  valid_date (start_date drifting_loan) = true /\
  _generate_payment_dates drifting_loan = Ok (dates_of drifting_loan) /\
  dates_of drifting_loan !! 0%nat = Some (mkdate 2024 1 30) /\
  dates_of drifting_loan !! 1%nat = Some (mkdate 2024 2 29) /\
  dates_of drifting_loan !! 2%nat = Some (mkdate 2024 3 31) /\
  exists k, (frequency drifting_loan, k) ∈ [("M", 1); ("Q", 3); ("S", 6); ("A", 12)] /\
    forall i a b, dates_of drifting_loan !! i = Some a ->
                  dates_of drifting_loan !! S i = Some b ->
      is_month_end a = false ->
      year b * 12 + month b = year a * 12 + month a + k /\
      day b = Z.min (days_in_month (year b) (month b)) (day a) /\
      (days_in_month (year b) (month b) <= day a -> is_month_end b = true).
Proof.
  assert (Hf : frequency drifting_loan ∈ ["M"; "Q"; "S"; "A"])
    by (apply list_elem_of_here).
  assert (Hv : valid_date (start_date drifting_loan) = true)
    by (vm_compute; reflexivity).
  assert (Hd : _generate_payment_dates drifting_loan = Ok (dates_of drifting_loan))
    by (vm_compute; reflexivity).
  split; [exact Hf|]. split; [exact Hv|]. split; [exact Hd|].
  split; [vm_compute; reflexivity|]. split; [vm_compute; reflexivity|].
  split; [vm_compute; reflexivity|].
  exact (other_days_are_kept_or_clamped drifting_loan _ Hf Hv Hd).
Defined.

(** ** Every roll moves forward *)

Section Forward.

Lemma date_ltb_total a b :
  date_ltb a b = false -> a = b \/ date_ltb b a = true.
Proof.
  unfold date_ltb. intros H.
  apply orb_false_elim in H as [Hy H]. apply Z.ltb_ge in Hy.
  destruct (Z.eqb_spec (year a) (year b)) as [Heq|Hne].
  - cbn [andb] in H. apply orb_false_elim in H as [Hm H]. apply Z.ltb_ge in Hm.
    destruct (Z.eqb_spec (month a) (month b)) as [Hmeq|Hmne].
    + cbn [andb] in H. apply Z.ltb_ge in H.
      destruct (Z.eq_dec (day a) (day b)) as [Hd|Hd].
      * left. destruct a, b. cbn in *. congruence.
      * right. apply orb_true_intro. right.
        rewrite <- Heq, Z.eqb_refl. cbn [andb]. apply orb_true_intro. right.
        rewrite <- Hmeq, Z.eqb_refl. cbn [andb]. apply Z.ltb_lt. lia.
    + right. apply orb_true_intro. right.
      rewrite <- Heq, Z.eqb_refl. cbn [andb]. apply orb_true_intro. left.
      apply Z.ltb_lt. lia.
  - right. apply orb_true_intro. left. apply Z.ltb_lt. lia.
Qed.

Lemma toordinal_lt_date_ltb a b :
  valid_date a = true -> valid_date b = true ->
  toordinal a < toordinal b -> date_ltb a b = true.
Proof.
  intros Ha Hb Hlt. destruct (date_ltb a b) eqn:E; [reflexivity|].
  apply date_ltb_total in E as [->|E]; [lia|].
  pose proof (date_ltb_toordinal _ _ Hb Ha E). lia.
Qed.

Lemma roll_week_based freq step d d' :
  (freq, step) ∈ [("W", 7); ("BW", 14)] ->
  valid_date d = true -> roll freq d = Ok d' ->
  valid_date d' = true /\ toordinal d' = toordinal d + step.
Proof.
  intros Hf Hv H.
  assert (Hroll : roll freq d = add_days d step).
  { unfold roll.
    repeat (apply elem_of_cons in Hf as [[= -> ->]|Hf]);
      [| |apply elem_of_nil in Hf; contradiction];
      repeat match goal with
        | |- context [decide (?a = ?b)] =>
            destruct (decide (a = b)) as [Heq|Hne];
            [try discriminate Heq | try congruence]
        end;
      rewrite add_relativedelta_weeks by assumption; reflexivity. }
  rewrite Hroll in H. apply add_days_spec in H. exact H.
Qed.

Lemma roll_month_forward freq d d' :
  freq ∈ ["M"; "Q"; "S"; "A"] ->
  valid_date d = true -> roll freq d = Ok d' ->
  valid_date d' = true /\ date_ltb d d' = true.
Proof.
  intros Hf Hv H.
  destruct (roll_month_based freq d Hf) as (k & Hk & Hroll).
  rewrite Hroll, (adjust_end_of_month_eq d k Hv Hk) in H.
  pose proof (valid_date_inv _ Hv) as (Hy & Hm & Hd).
  assert (Hk' : 1 <= k <= 12).
  { repeat (apply elem_of_cons in Hk as [->|Hk]); try lia.
    apply elem_of_nil in Hk. contradiction. }
  pose proof (month_shift_cases d k Hm Hk') as Hcases.
  destruct (month_shift d k) as [y m].
  destruct (Z.leb_spec y 9999) as [Hle|]; [|discriminate].
  injection H as <-.
  pose proof (days_in_month_bounds y m) as Hdim.
  destruct (Z.ltb_spec 12 (month d + k)); injection Hcases as -> ->.
  - specialize (Hdim ltac:(lia)). split.
    + apply valid_date_intro; cbn [year month day]; try lia.
      destruct (is_month_end d); lia.
    + unfold date_ltb. cbn [year month day]. apply orb_true_intro. left.
      apply Z.ltb_lt. lia.
  - specialize (Hdim ltac:(lia)). split.
    + apply valid_date_intro; cbn [year month day]; try lia.
      destruct (is_month_end d); lia.
    + unfold date_ltb. cbn [year month day]. apply orb_true_intro. right.
      rewrite Z.eqb_refl. cbn [andb]. apply orb_true_intro. left.
      apply Z.ltb_lt. lia.
Qed.

Lemma roll_forward freq d d' :
  freq ∈ ["W"; "BW"; "M"; "Q"; "S"; "A"] ->
  valid_date d = true -> roll freq d = Ok d' ->
  valid_date d' = true /\ date_ltb d d' = true.
Proof.
  intros Hf Hv H.
  apply elem_of_cons in Hf as [->|Hf].
  { destruct (roll_week_based "W" 7 d d') as [Hv' Ho]; try assumption.
    - apply list_elem_of_here.
    - split; [exact Hv'|]. apply toordinal_lt_date_ltb; try assumption. lia. }
  apply elem_of_cons in Hf as [->|Hf].
  { destruct (roll_week_based "BW" 14 d d') as [Hv' Ho]; try assumption.
    - apply list_elem_of_further, list_elem_of_here.
    - split; [exact Hv'|]. apply toordinal_lt_date_ltb; try assumption. lia. }
  eapply roll_month_forward; eassumption.
Qed.

Lemma roll_dates_forward n freq : forall d l,
  freq ∈ ["W"; "BW"; "M"; "Q"; "S"; "A"] ->
  valid_date d = true -> roll_dates n freq d = Ok l ->
  Forall (fun x => valid_date x = true) l /\
  forall i a b, (d :: l) !! i = Some a -> (d :: l) !! S i = Some b ->
                date_ltb a b = true.
Proof.
  induction n as [|n IH]; intros d l Hf Hv H; cbn in H.
  - injection H as <-. split; [constructor|]. intros i a b _ Hb. destruct i; discriminate.
  - inv_bind H as d' Hd. inv_bind H as rest Hr. injection H as <-.
    destruct (roll_forward _ _ _ Hf Hv Hd) as [Hv' Hlt].
    destruct (IH d' rest Hf Hv' Hr) as [Hall Hstep].
    split; [constructor; assumption|].
    intros i a b Ha Hb. destruct i as [|i].
    + cbn in Ha, Hb. injection Ha as <-. injection Hb as <-. exact Hlt.
    + exact (Hstep i a b Ha Hb).
Qed.

End Forward.

(** X11. From a valid start date and with one of the six frequency codes, the
    generated dates are valid dates in strictly increasing order. *)
Theorem payment_dates_strictly_increase self dates :
  frequency self ∈ ["W"; "BW"; "M"; "Q"; "S"; "A"] ->
  valid_date (start_date self) = true ->
  _generate_payment_dates self = Ok dates ->
  Forall (fun d => valid_date d = true) dates /\
  forall i a b, dates !! i = Some a -> dates !! S i = Some b ->
                date_ltb a b = true /\ 0 < days_between b a.
Proof.
  intros Hf Hv H. apply generate_payment_dates_inv in H as (new & -> & Hn & _).
  destruct (roll_dates_forward _ _ _ _ Hf Hv Hn) as [Hall Hstep].
  assert (Hall' : Forall (fun d => valid_date d = true) (start_date self :: new))
    by (constructor; assumption).
  split; [exact Hall'|].
  intros i a b Ha Hb. pose proof (Hstep i a b Ha Hb) as Hlt.
  split; [exact Hlt|].
  rewrite Forall_lookup in Hall'.
  pose proof (Hall' _ _ Ha) as Hva. pose proof (Hall' _ _ Hb) as Hvb.
  pose proof (date_ltb_toordinal _ _ Hva Hvb Hlt). unfold days_between. lia.
Qed.

Lemma payment_dates_strictly_increase_witness :
  frequency monthly_loan ∈ ["W"; "BW"; "M"; "Q"; "S"; "A"] /\
  valid_date (start_date monthly_loan) = true /\
  _generate_payment_dates monthly_loan = Ok (dates_of monthly_loan) /\
  forall i a b, dates_of monthly_loan !! i = Some a ->
                dates_of monthly_loan !! S i = Some b ->
                date_ltb a b = true /\ 0 < days_between b a.
Proof.
  assert (Hf : frequency monthly_loan ∈ ["W"; "BW"; "M"; "Q"; "S"; "A"])
    by (do 2 apply list_elem_of_further; apply list_elem_of_here).
  assert (Hv : valid_date (start_date monthly_loan) = true)
    by (vm_compute; reflexivity).
  assert (Hd : _generate_payment_dates monthly_loan = Ok (dates_of monthly_loan))
    by (vm_compute; reflexivity).
  split; [exact Hf|]. split; [exact Hv|]. split; [exact Hd|].
  exact (proj2 (payment_dates_strictly_increase monthly_loan _ Hf Hv Hd)).
Defined.

(** X12. Week-based frequencies step by exactly 7 or 14 days. *)
Theorem week_based_dates_are_evenly_spaced self step dates :
  (frequency self, step) ∈ [("W", 7); ("BW", 14)] ->
  valid_date (start_date self) = true ->
  _generate_payment_dates self = Ok dates ->
  forall i a b, dates !! i = Some a -> dates !! S i = Some b ->
                days_between b a = step.
Proof.
  intros Hf Hv H. apply generate_payment_dates_inv in H as (new & -> & Hn & _).
  assert (Hsix : frequency self ∈ ["W"; "BW"; "M"; "Q"; "S"; "A"]).
  { repeat (apply elem_of_cons in Hf as [[= -> ->]|Hf]);
      [| |apply elem_of_nil in Hf; contradiction]; set_solver. }
  destruct (roll_dates_forward _ _ _ _ Hsix Hv Hn) as [Hall _].
  assert (Hall' : Forall (fun d => valid_date d = true) (start_date self :: new))
    by (constructor; assumption).
  intros i a b Ha Hb.
  rewrite Forall_lookup in Hall'. pose proof (Hall' _ _ Ha) as Hva.
  pose proof (roll_dates_chain _ _ _ _ Hn i a b Ha Hb) as Hr.
  destruct (roll_week_based _ _ _ _ Hf Hva Hr) as [_ Ho].
  unfold days_between. lia.
Qed.

Lemma week_based_dates_are_evenly_spaced_witness :
  (frequency weekly_loan, 7) ∈ [("W", 7); ("BW", 14)] /\
  valid_date (start_date weekly_loan) = true /\
  _generate_payment_dates weekly_loan = Ok (dates_of weekly_loan) /\
  forall i a b, dates_of weekly_loan !! i = Some a ->
                dates_of weekly_loan !! S i = Some b ->
                days_between b a = 7.
Proof.
  assert (Hf : (frequency weekly_loan, 7) ∈ [("W", 7); ("BW", 14)])
    by (apply list_elem_of_here).
  assert (Hv : valid_date (start_date weekly_loan) = true)
    by (vm_compute; reflexivity).
  assert (Hd : _generate_payment_dates weekly_loan = Ok (dates_of weekly_loan))
    by (vm_compute; reflexivity).
  split; [exact Hf|]. split; [exact Hv|]. split; [exact Hd|].
  exact (week_based_dates_are_evenly_spaced weekly_loan 7 _ Hf Hv Hd).
Defined.

(** ** The codes of the constructor *)

Lemma periods_table_unknown freq :
  freq ∉ ["W"; "BW"; "M"; "Q"; "S"; "A"] -> periods_table !! freq = None.
Proof. intros H. apply not_elem_of_list_to_map_1. exact H. Qed.

Lemma dcc_table_unknown conv :
  conv ∉ ["30/360"; "Actual/360"; "Actual/365"; "Actual/Actual"] ->
  dcc_table !! conv = None.
Proof. intros H. apply not_elem_of_list_to_map_1. exact H. Qed.

(** X13. A frequency or convention code outside the two tables makes the
    constructor raise: KeyError once the rate has been divided by 100. *)
Theorem unknown_code_is_rejected principal annual_rate start yrs conv freq :
  freq ∉ ["W"; "BW"; "M"; "Q"; "S"; "A"] \/
  conv ∉ ["30/360"; "Actual/360"; "Actual/365"; "Actual/Actual"] ->
  is_ok (init principal annual_rate start yrs conv freq) = false /\
  (forall r, Decimal.div annual_rate (Decimal.of_Z 100) = Ok r ->
             init principal annual_rate start yrs conv freq = Raise KeyError).
Proof.
  intros H.
  assert (Hkey : forall r, Decimal.div annual_rate (Decimal.of_Z 100) = Ok r ->
             init principal annual_rate start yrs conv freq = Raise KeyError).
  { intros r Hr. unfold init. rewrite Hr. cbn [mbind result_bind].
    destruct H as [H|H].
    - rewrite (periods_table_unknown _ H). reflexivity.
    - rewrite (dcc_table_unknown _ H).
      destruct (periods_table !! freq); reflexivity. }
  split; [|exact Hkey].
  destruct (Decimal.div annual_rate (Decimal.of_Z 100)) as [r|ex] eqn:Hr.
  - rewrite (Hkey r eq_refl). reflexivity.
  - unfold init. rewrite Hr. reflexivity.
Qed.

Lemma unknown_code_is_rejected_witness :
  ("D" ∉ ["W"; "BW"; "M"; "Q"; "S"; "A"]) /\
  init (dec 100000 2) (dec 12 0) (mkdate 2024 1 15) 1 "30/360" "D" = Raise KeyError.
Proof.
  assert (Hf : "D" ∉ ["W"; "BW"; "M"; "Q"; "S"; "A"]).
  { rewrite !not_elem_of_cons. repeat split; try discriminate. apply not_elem_of_nil. }
  split; [exact Hf|].
  apply (proj2 (unknown_code_is_rejected
                  (dec 100000 2) (dec 12 0) (mkdate 2024 1 15) 1 "30/360" "D"
                  (or_introl Hf))
           (dec 12 2)).
  vm_compute. reflexivity.
Defined.





(** ** The end of the calendar *)

Lemma roll_dates_week_based_range n freq step : forall d,
  (freq, step) ∈ [("W", 7); ("BW", 14)] ->
  valid_date d = true ->
  (toordinal d + step * Z.of_nat n <= MAXORDINAL -> is_ok (roll_dates n freq d) = true) /\
  (MAXORDINAL < toordinal d + step * Z.of_nat n ->
   roll_dates n freq d = Raise DateOutOfRange).
Proof.
  induction n as [|n IH]; intros d Hf Hv.
  - split; [reflexivity|]. pose proof (toordinal_bounds _ Hv). lia.
  - assert (Hstep : 0 < step).
    { repeat (apply elem_of_cons in Hf as [[= -> ->]|Hf]); try lia.
      apply elem_of_nil in Hf. contradiction. }
    assert (Hroll : roll freq d = add_days d step).
    { unfold roll. clear IH.
      repeat (apply elem_of_cons in Hf as [[= -> ->]|Hf]);
        [| |apply elem_of_nil in Hf; contradiction];
        repeat match goal with
          | |- context [decide (?a = ?b)] =>
              destruct (decide (a = b)) as [Heq|Hne];
              [try discriminate Heq | try congruence]
          end;
        rewrite add_relativedelta_weeks by assumption; reflexivity. }
    pose proof (toordinal_bounds _ Hv) as Hb.
    cbn [roll_dates]. rewrite Hroll.
    destruct (Z.le_gt_cases (toordinal d + step) MAXORDINAL) as [Hin|Hout].
    + rewrite add_days_ok by lia. cbn [mbind result_bind].
      assert (Hv' : valid_date (fromordinal (toordinal d + step)) = true)
        by (apply fromordinal_valid; lia).
      destruct (IH (fromordinal (toordinal d + step)) Hf Hv') as [Hok Hraise].
      rewrite toordinal_fromordinal in Hok, Hraise.
      split.
      * intros Hle. specialize (Hok ltac:(lia)).
        destruct (roll_dates n freq _); [reflexivity|discriminate].
      * intros Hgt. rewrite Hraise by lia. reflexivity.
    + split; [lia|]. intros _. unfold add_days.
      destruct (Z.ltb_spec 0 (toordinal d + step)); [|reflexivity].
      destruct (Z.leb_spec (toordinal d + step) MAXORDINAL); [lia|reflexivity].
Qed.

(** X15. A week-based sequence is generated exactly when its last date is not
    after 9999-12-31; otherwise the generator raises. *)
Theorem week_based_dates_stop_at_max_date self step :
  (frequency self, step) ∈ [("W", 7); ("BW", 14)] ->
  valid_date (start_date self) = true -> 0 <= terms self ->
  (toordinal (start_date self) + step * terms self <= MAXORDINAL ->
   is_ok (_generate_payment_dates self) = true) /\
  (MAXORDINAL < toordinal (start_date self) + step * terms self ->
   _generate_payment_dates self = Raise DateOutOfRange).
Proof.
  intros Hf Hv Ht. unfold _generate_payment_dates. rewrite dates_loop_eq.
  destruct (roll_dates_week_based_range (Z.to_nat (terms self)) _ _ (start_date self) Hf Hv)
    as [Hok Hraise].
  rewrite Z2Nat.id in Hok, Hraise by exact Ht.
  split.
  - intros Hle. specialize (Hok Hle).
    destruct (roll_dates _ _ _); [reflexivity|discriminate].
  - intros Hgt. rewrite (Hraise Hgt). reflexivity.
Qed.

Lemma week_based_dates_stop_at_max_date_witness :
  (frequency late_weekly_loan, 7) ∈ [("W", 7); ("BW", 14)] /\
  valid_date (start_date late_weekly_loan) = true /\
  0 <= terms late_weekly_loan /\
  MAXORDINAL < toordinal (start_date late_weekly_loan) + 7 * terms late_weekly_loan /\
  _generate_payment_dates late_weekly_loan = Raise DateOutOfRange.
Proof.
  assert (Hf : (frequency late_weekly_loan, 7) ∈ [("W", 7); ("BW", 14)])
    by (apply list_elem_of_here).
  assert (Hv : valid_date (start_date late_weekly_loan) = true)
    by (vm_compute; reflexivity).
  assert (Ht : 0 <= terms late_weekly_loan) by (cbn; lia).
  assert (Hlate : MAXORDINAL < toordinal (start_date late_weekly_loan)
                               + 7 * terms late_weekly_loan)
    by (vm_compute; reflexivity).
  split; [exact Hf|]. split; [exact Hv|]. split; [exact Ht|]. split; [exact Hlate|].
  exact (proj2 (week_based_dates_stop_at_max_date late_weekly_loan 7 Hf Hv Ht) Hlate).
Defined.

(** ** Thirty360 over a month-based schedule *)

Lemma roll_months_keeps_day freq d d' :
  freq ∈ ["M"; "Q"; "S"; "A"] ->
  valid_date d = true -> day d <= 27 -> roll freq d = Ok d' ->
  exists k, (freq, k) ∈ [("M", 1); ("Q", 3); ("S", 6); ("A", 12)] /\
            valid_date d' = true /\ day d' = day d /\
            (year d' - year d) * 12 + (month d' - month d) = k.
Proof.
  intros Hf Hv Hday H.
  pose proof (valid_date_inv _ Hv) as (Hy & Hm & Hd).
  assert (Hk : exists k, (freq, k) ∈ [("M", 1); ("Q", 3); ("S", 6); ("A", 12)] /\
                         k ∈ [1; 3; 6; 12] /\ roll freq d = _adjust_end_of_month d k).
  { unfold roll.
    repeat (apply elem_of_cons in Hf as [->|Hf]);
      [exists 1|exists 3|exists 6|exists 12|apply elem_of_nil in Hf; contradiction];
      (split; [rewrite !elem_of_cons; tauto|]);
      (split; [rewrite !elem_of_cons; tauto|]);
      repeat match goal with
        | |- context [decide (?a = ?b)] =>
            destruct (decide (a = b)) as [Heq|Hne];
            [try discriminate Heq | try congruence]
        end;
      reflexivity. }
  destruct Hk as (k & Hfk & Hk & Hroll). exists k. split; [exact Hfk|].
  destruct (roll_month_forward freq d d' Hf Hv H) as [Hv' _].
  split; [exact Hv'|].
  rewrite Hroll, (adjust_end_of_month_eq d k Hv Hk) in H.
  assert (Hk' : 1 <= k <= 12).
  { repeat (apply elem_of_cons in Hk as [->|Hk]); try lia.
    apply elem_of_nil in Hk. contradiction. }
  pose proof (month_shift_cases d k Hm Hk') as Hcases.
  destruct (month_shift d k) as [y m].
  destruct (Z.leb_spec y 9999) as [Hle|]; [|discriminate].
  assert (Hnot_end : is_month_end d = false).
  { unfold is_month_end. rewrite monthrange_snd.
    pose proof (days_in_month_bounds (year d) (month d) Hm). apply Z.eqb_neq. lia. }
  rewrite Hnot_end in H. injection H as <-. cbn [year month day].
  destruct (Z.ltb_spec 12 (month d + k)); injection Hcases as -> ->.
  - pose proof (days_in_month_bounds (year d + 1) (month d + k - 12) ltac:(lia)).
    split; lia.
  - pose proof (days_in_month_bounds (year d) (month d + k) ltac:(lia)).
    split; lia.
Qed.

(** X16. From a start day of the month up to the 27th, a month-based schedule
    keeps that day of the month, and Thirty360 gives every period the same
    count, 30 days per month of the frequency, and so the same year
    fraction. *)
Theorem thirty360_periods_are_uniform self dates :
  frequency self ∈ ["M"; "Q"; "S"; "A"] ->
  valid_date (start_date self) = true -> day (start_date self) <= 27 ->
  _generate_payment_dates self = Ok dates ->
  exists k, (frequency self, k) ∈ [("M", 1); ("Q", 3); ("S", 6); ("A", 12)] /\
    forall i a b, dates !! i = Some a -> dates !! S i = Some b ->
      day b = day (start_date self) /\
      exists q, DayCountConvention.year_fraction_30_360 a b = Ok (q, 30 * k) /\
                Decimal.div (Decimal.of_Z (30 * k)) (Decimal.of_Z 360) = Ok q.
Proof.
  intros Hf Hv Hday H. apply generate_payment_dates_inv in H as (new & -> & Hn & _).
  assert (Hk : exists k, (frequency self, k) ∈ [("M", 1); ("Q", 3); ("S", 6); ("A", 12)]).
  { revert Hf. generalize (frequency self). intros f Hf.
    repeat (apply elem_of_cons in Hf as [->|Hf]);
      [exists 1|exists 3|exists 6|exists 12|apply elem_of_nil in Hf; contradiction];
      rewrite !elem_of_cons; tauto. }
  destruct Hk as (k & Hk). exists k. split; [exact Hk|].
  assert (Hinv : forall i a, (start_date self :: new) !! i = Some a ->
                             valid_date a = true /\ day a = day (start_date self)).
  { induction i as [|i IHi]; intros a Ha.
    - cbn in Ha. injection Ha as <-. auto.
    - destruct ((start_date self :: new) !! i) as [p|] eqn:Hp.
      + destruct (IHi p eq_refl) as [Hvp Hdp].
        pose proof (roll_dates_chain _ _ _ _ Hn i p a Hp Ha) as Hr.
        destruct (roll_months_keeps_day _ _ _ Hf Hvp ltac:(lia) Hr)
          as (k' & _ & Hva & Hda & _).
        split; [exact Hva|lia].
      + apply lookup_ge_None in Hp. apply lookup_lt_Some in Ha. lia. }
  intros i a b Ha Hb.
  destruct (Hinv i a Ha) as [Hva Hda].
  pose proof (roll_dates_chain _ _ _ _ Hn i a b Ha Hb) as Hr.
  destruct (roll_months_keeps_day _ _ _ Hf Hva ltac:(lia) Hr)
    as (k' & Hk' & Hvb & Hdb & Hmonths).
  assert (k' = k).
  { clear - Hk Hk'. revert Hk Hk'. generalize (frequency self). intros f.
    rewrite !elem_of_cons, !elem_of_nil. intros Hk Hk'.
    destruct Hk as [Hk|[Hk|[Hk|[Hk|[]]]]]; injection Hk as -> ->;
      destruct Hk' as [Hk'|[Hk'|[Hk'|[Hk'|[]]]]]; congruence. }
  subst k'. split; [lia|].
  assert (Hdays : days_30_360 a b = 30 * k) by (unfold days_30_360; rewrite Hdb; lia).
  destruct (year_fraction_30_360_total a b Hva Hvb) as (q & Hyf & Hq & _).
  rewrite Hdays in Hyf, Hq. exists q. split; [exact Hyf|exact Hq].
Qed.

Lemma thirty360_periods_are_uniform_witness :
  frequency quarterly_loan ∈ ["M"; "Q"; "S"; "A"] /\
  valid_date (start_date quarterly_loan) = true /\
  day (start_date quarterly_loan) <= 27 /\
  _generate_payment_dates quarterly_loan = Ok (dates_of quarterly_loan) /\
  exists k, (frequency quarterly_loan, k) ∈ [("M", 1); ("Q", 3); ("S", 6); ("A", 12)] /\
    forall i a b, dates_of quarterly_loan !! i = Some a ->
                  dates_of quarterly_loan !! S i = Some b ->
      day b = day (start_date quarterly_loan) /\
      exists q, DayCountConvention.year_fraction_30_360 a b = Ok (q, 30 * k) /\
                Decimal.div (Decimal.of_Z (30 * k)) (Decimal.of_Z 360) = Ok q.
Proof.
  assert (Hf : frequency quarterly_loan ∈ ["M"; "Q"; "S"; "A"])
    by (apply list_elem_of_further; apply list_elem_of_here).
  assert (Hv : valid_date (start_date quarterly_loan) = true)
    by (vm_compute; reflexivity).
  assert (Hday : day (start_date quarterly_loan) <= 27) by (cbn; lia).
  assert (Hd : _generate_payment_dates quarterly_loan = Ok (dates_of quarterly_loan))
    by (vm_compute; reflexivity).
  split; [exact Hf|]. split; [exact Hv|]. split; [exact Hday|]. split; [exact Hd|].
  exact (thirty360_periods_are_uniform quarterly_loan _ Hf Hv Hday Hd).
Defined.

(** ** The installment of a loan without interest *)

Section ZeroRateInstallment.

Import Decimal.











End ZeroRateInstallment.



(** ** Swapping the dates of a period *)

Section Swap.

Import Decimal DayCountConvention.

Lemma fix_neg d : fix_ (neg d) = negated (fix_ d).
Proof.
  unfold fix_, neg. cbn [coef expo]. rewrite Z.abs_opp, Z.sgn_opp.
  destruct (Z.eqb_spec (coef d) 0) as [Hz|Hnz].
  - rewrite Hz. reflexivity.
  - destruct (Z.eqb_spec (- coef d) 0) as [Hz'|_]; [lia|].
    cbv zeta.
    destruct (Etop <? _); [reflexivity|].
    destruct (expo d <? _).
    + destruct (rounds_up _ _).
      * destruct (prec <? _); destruct (Etop <? _); cbn [negated neg coef expo];
          try reflexivity; rewrite Z.mul_opp_l; reflexivity.
      * destruct (Etop <? _); cbn [negated neg coef expo];
          try reflexivity; rewrite Z.mul_opp_l; reflexivity.
    + reflexivity.
Qed.

Lemma div_neg_l a b : div (neg a) b = negated (div a b).
Proof.
  unfold div. change (expo (neg a)) with (expo a).
  change (coef (neg a)) with (- coef a). rewrite Z.abs_opp, Z.sgn_opp.
  destruct (Z.eqb_spec (coef b) 0) as [Hb|Hb].
  - destruct (Z.eqb_spec (coef a) 0) as [Ha|Ha];
      destruct (Z.eqb_spec (- coef a) 0); try lia; reflexivity.
  - destruct (Z.eqb_spec (coef a) 0) as [Ha|Ha];
      destruct (Z.eqb_spec (- coef a) 0) as [Ha'|Ha']; try lia.
    + exact (fix_neg (mk 0 (expo a - expo b))).
    + cbv zeta.
      destruct (if 0 <=? _ then _ else _) as [q r].
      destruct (if negb (r =? 0) then _ else _) as [coeff e].
      rewrite <- fix_neg. unfold neg. cbn [coef expo].
      rewrite !Z.mul_opp_l. reflexivity.
Qed.

Lemma div_opp_days n len q :
  div (of_Z n) (of_Z len) = Ok q -> div (of_Z (- n)) (of_Z len) = Ok (neg q).
Proof.
  intros H. change (of_Z (- n)) with (neg (of_Z n)). rewrite div_neg_l, H. reflexivity.
Qed.

Lemma days_30_360_swap s e : days_30_360 e s = - days_30_360 s e.
Proof. unfold days_30_360. lia. Qed.

Lemma days_between_swap s e : days_between s e = - days_between e s.
Proof. unfold days_between. lia. Qed.

End Swap.

(** X18. Swapping the two dates of a period negates the day count of every
    convention.  It negates the year fraction too under 30/360, Actual/360
    and Actual/365, and under Actual/Actual when the two dates fall in years
    of the same length: that convention takes the length of the year from
    the start date alone. *)
Theorem swapped_dates_negate_year_fraction s e :
  (forall yf, yf ∈ [DayCountConvention.year_fraction_30_360;
                    DayCountConvention.year_fraction_actual_360;
                    DayCountConvention.year_fraction_actual_365] ->
     forall q days, yf s e = Ok (q, days) -> yf e s = Ok (Decimal.neg q, - days)) /\
  (isleap (year s) = isleap (year e) ->
   forall q days,
     DayCountConvention.year_fraction_actual_actual s e = Ok (q, days) ->
     DayCountConvention.year_fraction_actual_actual e s = Ok (Decimal.neg q, - days)).
Proof.
  split.
  - intros yf Hyf q days H.
    repeat (apply elem_of_cons in Hyf as [->|Hyf]);
      [| | |apply elem_of_nil in Hyf; contradiction].
    + unfold DayCountConvention.year_fraction_30_360 in *. cbv zeta in *.
      fold (days_30_360 s e) in H. fold (days_30_360 e s).
      inv_bind H as q0 Hq. injection H as <- <-.
      rewrite days_30_360_swap, (div_opp_days _ _ _ Hq). reflexivity.
    + unfold DayCountConvention.year_fraction_actual_360 in *. cbv zeta in *.
      inv_bind H as q0 Hq. injection H as <- <-.
      rewrite (days_between_swap s e), (div_opp_days _ _ _ Hq). reflexivity.
    + unfold DayCountConvention.year_fraction_actual_365 in *. cbv zeta in *.
      inv_bind H as q0 Hq. injection H as <- <-.
      rewrite (days_between_swap s e), (div_opp_days _ _ _ Hq). reflexivity.
  - intros Hleap q days H.
    unfold DayCountConvention.year_fraction_actual_actual in *. cbv zeta in *.
    rewrite Hleap in H. inv_bind H as q0 Hq. injection H as <- <-.
    rewrite (days_between_swap s e), (div_opp_days _ _ _ Hq). reflexivity.
Qed.

Lemma swapped_dates_negate_year_fraction_witness :
  DayCountConvention.year_fraction_30_360 (mkdate 2024 1 31) (mkdate 2024 3 1)
  = Ok (dec 8611111111111111111111111111 29, 31) /\
  DayCountConvention.year_fraction_30_360 (mkdate 2024 3 1) (mkdate 2024 1 31)
  = Ok (dec (-8611111111111111111111111111) 29, -31).
Proof.
  assert (H : DayCountConvention.year_fraction_30_360 (mkdate 2024 1 31) (mkdate 2024 3 1)
              = Ok (dec 8611111111111111111111111111 29, 31))
    by (vm_compute; reflexivity).
  split; [exact H|].
  exact (proj1 (swapped_dates_negate_year_fraction (mkdate 2024 1 31) (mkdate 2024 3 1))
           _ (list_elem_of_here _ _) _ _ H).
Defined.
